(** * Motion Simon Says (ESP32 + MPU6050 + SSD1306): a shallow embedding of
    [Simon_Says.ino] and the properties of its game engine, tilt classifier
    and peripheral bring-up.

    Conventions of the embedding.
    - The sketch's globals and its two function-local [static] variables form
      the record [State]; every function of the sketch is a function on it.
    - Everything the sketch sends to a peripheral (display, serial port, I2C
      bus, sensor) and every [delay] is appended to the field [trace].
    - Everything the sketch reads from the outside ([millis], [digitalRead],
      [analogRead], the random source, the accelerometer, the result of a
      bring-up attempt) is an argument of the function that reads it.
    - A function that indexes [sequence] returns [option]: [None] stands for
      an access outside the array, which C++ leaves undefined. *)

From Stdlib Require Import ZArith Lia PrimFloat.
From stdpp Require Import base option list strings sets.

Local Open Scope Z_scope.

(** ** Build-time configuration (the sketch's [#define]s and constants) *)

Definition I2C_SDA : Z := 21.
Definition I2C_SCL : Z := 22.
Definition I2C_SPEED : Z := 100000.
Definition OLED_ADDRESS : Z := 60.   (* 0x3C *)
Definition MPU_ADDRESS : Z := 104.   (* 0x68 *)
Definition BUTTON_PIN : Z := 15.
Definition MAX_LEVEL : Z := 10.
Definition MOVE_DELAY : Z := 800.
Definition INPUT_TIMEOUT : Z := 3000.
Definition PITCH_THRESHOLD : Z := 25.
Definition ROLL_THRESHOLD : Z := 15.
Definition WHITE : Z := 1.

(** ** Machine integers of the ESP32 target *)

(** [int] is 32 bits wide; an arithmetic result is brought back into range. *)
Definition wrap_int (z : Z) : Z := (z + 2 ^ 31) mod 2 ^ 32 - 2 ^ 31.

(** [unsigned long] and [uint32_t] are 32 bits wide: [millis()] delivers the
    uptime [t] (in ms) modulo 2^32, and unsigned subtraction wraps. *)
Definition millis (t : Z) : Z := t mod 2 ^ 32.
Definition elapsed (now last : Z) : Z := (now - last) mod 2 ^ 32.

(** ** The I/O trace *)

Inductive Cmd : Type :=
| SerialBegin (baud : Z)
| SerialPrintln (msg : string)
| PinModePullup (pin : Z)
| WireBegin (sda scl : Z)
| WireSetClock (hz : Z)
| WireProbe (addr : Z)               (* beginTransmission; endTransmission *)
| WireEnd
| MpuBegin (addr : Z)
| MpuConfigure                       (* the three range / bandwidth setters *)
| MpuGetEvent
| OledBegin (addr : Z)
| RandomSeed (seed : Z)
| Delay (ms : Z)
| ClearDisplay
| SetTextSize (n : Z)
| SetTextColor (c : Z)
| SetCursor (x y : Z)
| PrintStr (s : string)
| PrintlnStr (s : string)
| PrintlnInt (n : Z)
| FillRect (x y w h c : Z)
| FillTriangle (x0 y0 x1 y1 x2 y2 c : Z)
| DisplayShow.

(** ** The sketch's mutable state *)

Record State : Type := mkState {
  sequence : list Z;        (* int sequence[MAX_LEVEL] *)
  currentLevel : Z;         (* int currentLevel = 1 *)
  gameStarted : bool;
  gameOver : bool;
  lastInputTime : Z;        (* unsigned long *)
  currentMove : Z;          (* static int currentMove, local to checkPlayerInput *)
  lastRecovery : Z;         (* static uint32_t lastRecovery, local to loop *)
  trace : list Cmd          (* commands issued so far, oldest first *)
}.

Definition set_sequence (v : list Z) (s : State) : State :=
  mkState v (currentLevel s) (gameStarted s) (gameOver s) (lastInputTime s)
          (currentMove s) (lastRecovery s) (trace s).
Definition set_currentLevel (v : Z) (s : State) : State :=
  mkState (sequence s) v (gameStarted s) (gameOver s) (lastInputTime s)
          (currentMove s) (lastRecovery s) (trace s).
Definition set_gameStarted (v : bool) (s : State) : State :=
  mkState (sequence s) (currentLevel s) v (gameOver s) (lastInputTime s)
          (currentMove s) (lastRecovery s) (trace s).
Definition set_gameOver (v : bool) (s : State) : State :=
  mkState (sequence s) (currentLevel s) (gameStarted s) v (lastInputTime s)
          (currentMove s) (lastRecovery s) (trace s).
Definition set_lastInputTime (v : Z) (s : State) : State :=
  mkState (sequence s) (currentLevel s) (gameStarted s) (gameOver s) v
          (currentMove s) (lastRecovery s) (trace s).
Definition set_currentMove (v : Z) (s : State) : State :=
  mkState (sequence s) (currentLevel s) (gameStarted s) (gameOver s)
          (lastInputTime s) v (lastRecovery s) (trace s).
Definition set_lastRecovery (v : Z) (s : State) : State :=
  mkState (sequence s) (currentLevel s) (gameStarted s) (gameOver s)
          (lastInputTime s) (currentMove s) v (trace s).
Definition emit (cs : list Cmd) (s : State) : State :=
  mkState (sequence s) (currentLevel s) (gameStarted s) (gameOver s)
          (lastInputTime s) (currentMove s) (lastRecovery s) (trace s ++ cs).

(** The values of the globals when the board is powered on. *)
Definition power_on : State :=
  mkState (replicate (Z.to_nat MAX_LEVEL) 0) 1 false false 0 0 0 [].

(** [sequence[i]]; [None] when [i] is outside the array. *)
Definition sequence_at (s : State) (i : Z) : option Z :=
  if i <? 0 then None else sequence s !! Z.to_nat i.

(** ** Screens and glyphs *)

Definition start_screen : list Cmd :=
  [ClearDisplay; SetTextSize 1; SetTextColor WHITE; SetCursor 0 0;
   PrintlnStr "Simon Says Game"; PrintlnStr EmptyString;
   PrintlnStr "Press the button"; PrintlnStr "to start!"; DisplayShow].

Definition showStartScreen (s : State) : State := emit start_screen s.

Definition showGameOverScreen (s : State) : State :=
  emit [ClearDisplay; SetTextSize 1; SetTextColor WHITE; SetCursor 0 0;
        PrintlnStr "Game Over!"; PrintStr "Level: ";
        PrintlnInt (wrap_int (currentLevel s - 1)); PrintlnStr EmptyString;
        PrintlnStr "Press button"; PrintlnStr "to play again"; DisplayShow] s.

Definition up_glyph : list Cmd :=
  [ClearDisplay; FillRect 60 32 8 16 WHITE;
   FillTriangle 64 16 54 32 74 32 WHITE; DisplayShow].
Definition down_glyph : list Cmd :=
  [ClearDisplay; FillRect 60 16 8 16 WHITE;
   FillTriangle 64 48 54 32 74 32 WHITE; DisplayShow].
Definition left_glyph : list Cmd :=
  [ClearDisplay; FillRect 64 28 16 8 WHITE;
   FillTriangle 48 32 64 22 64 42 WHITE; DisplayShow].
Definition right_glyph : list Cmd :=
  [ClearDisplay; FillRect 48 28 16 8 WHITE;
   FillTriangle 80 32 64 22 64 42 WHITE; DisplayShow].

Definition UpArrow (s : State) : State := emit up_glyph s.
Definition DownArrow (s : State) : State := emit down_glyph s.
Definition LeftArrow (s : State) : State := emit left_glyph s.
Definition RightArrow (s : State) : State := emit right_glyph s.

Definition showArrow (direction : Z) (s : State) : State :=
  match direction with
  | 0 => UpArrow s
  | 1 => DownArrow s
  | 2 => LeftArrow s
  | 3 => RightArrow s
  | _ => s
  end.

Definition win_screen : list Cmd :=
  [ClearDisplay; SetTextSize 1; SetTextColor WHITE; SetCursor 0 0;
   PrintlnStr "You Win!"; PrintlnStr "Perfect Score!"; DisplayShow].

(** ** Floating point *)

(** A C [float] is carried by a primitive float: every single-precision value
    is also a double-precision value, and comparison and negation agree on
    them.  Rounded single-precision arithmetic and the C math library are not
    part of the sketch; the classifier takes them from a [FloatUnit]. *)
Class FloatUnit : Type := {
  f_mul : float -> float -> float;      (* x * y on float *)
  f_add : float -> float -> float;      (* x + y on float *)
  f_sqrt : float -> float;              (* sqrt *)
  f_atan2 : float -> float -> float;    (* atan2 *)
  f_degrees : float -> float            (* x * 180 / PI, stored into a float *)
}.

(** Conversion of an [int] to floating point; exact for every magnitude
    below 2^24, the only ones an [int] converts to a [float] without rounding. *)
Fixpoint float_of_pos (p : positive) : float :=
  match p with
  | xH => 1%float
  | xO q => (2 * float_of_pos q)%float
  | xI q => (2 * float_of_pos q + 1)%float
  end.

Definition float_of_int (z : Z) : float :=
  match z with
  | Z0 => 0%float
  | Zpos p => float_of_pos p
  | Zneg p => (- float_of_pos p)%float
  end.

(** One accelerometer sample, [a.acceleration.{x,y,z}]. *)
Record Accel : Type := mkAccel { ax : float; ay : float; az : float }.

(** The four samples one call of [checkPlayerInput] may fetch: every
    [isTilt...] function reads the sensor afresh. *)
Record Samples : Type := mkSamples {
  at_up : Accel; at_down : Accel; at_left : Accel; at_right : Accel
}.

(** What one iteration of [loop] reads from the outside. *)
Record Tick : Type := mkTick {
  t_loop : Z;            (* millis() in the recovery test *)
  t_recovered : Z;       (* millis() stored after a recovery *)
  btn_start : bool;      (* digitalRead(BUTTON_PIN) == LOW, start test *)
  adc : Z;               (* analogRead(0) *)
  raw : nat -> Z;        (* the random source: its i-th draw after seeding *)
  t_shown : Z;           (* millis() at the end of startGame's playback *)
  t_check : Z;           (* millis() in the timeout test *)
  acc : Samples;
  t_move : Z;            (* millis() after an accepted move *)
  t_next : Z;            (* millis() at the end of the next level's playback *)
  btn_reset : bool       (* digitalRead(BUTTON_PIN) == LOW, reset test *)
}.

(** What [setup] reads from the outside: the outcome of the i-th attempt of
    each bring-up loop. *)
Record Boot : Type := mkBoot {
  i2c_ack : nat -> bool;     (* Wire.endTransmission() == 0 *)
  mpu_ok : nat -> bool;      (* mpu.begin(MPU_ADDRESS) *)
  oled_ok : nat -> bool      (* display.begin(SSD1306_SWITCHCAPVCC, OLED_ADDRESS) *)
}.

(** The board after [setup]: spinning in one of the two [while (1)] loops, or
    handing over to [loop]. *)
Inductive System : Type :=
| Halted (s : State)
| Running (s : State).

(** The five states of the game, read off the sketch's flags.  The sketch
    raises [gameOver] both on a loss and on a win; a win is the game-over
    state entered through the sketch's own test [currentLevel > MAX_LEVEL]. *)
Inductive GameState : Type := Idle | ShowingSequence | AwaitingInput | Won | Lost.

(** The Arduino core's [random(howbig)], outside the sketch: the raw draw
    reduced modulo [howbig] (0 when [howbig] is 0). *)
Definition random (howbig : Z) (draw : Z) : Z :=
  if howbig =? 0 then 0 else draw mod howbig.

Section Sketch.

Context {fpu : FloatUnit}.

(** ** Motion detection *)

Definition pitch (a : Accel) : float :=
  f_degrees (f_atan2 (- ax a)%float
                     (f_sqrt (f_add (f_mul (ay a) (ay a)) (f_mul (az a) (az a))))).

Definition roll (a : Accel) : float :=
  f_degrees (f_atan2 (ay a) (az a)).

Definition isTiltUp (a : Accel) : bool :=
  (pitch a <? float_of_int (- PITCH_THRESHOLD))%float.

Definition isTiltDown (a : Accel) : bool :=
  (float_of_int PITCH_THRESHOLD <? pitch a)%float.

Definition isTiltLeft (a : Accel) : bool :=
  (roll a <? float_of_int (- ROLL_THRESHOLD))%float.

Definition isTiltRight (a : Accel) : bool :=
  (float_of_int ROLL_THRESHOLD <? roll a)%float.

(** ** Peripheral bring-up *)

(** The body of [for (int i = 0; i < 5; i++)], [n] iterations remaining. *)
Fixpoint i2c_attempts (n i : nat) (ack : nat -> bool) (s : State) : bool * State :=
  match n with
  | O => (false, s)
  | S n' =>
      let s1 := emit [WireBegin I2C_SDA I2C_SCL; WireSetClock I2C_SPEED;
                      WireProbe MPU_ADDRESS] s in
      if ack i then (true, s1)
      else i2c_attempts n' (S i) ack (emit [Delay 100] s1)
  end.

Definition initializeI2C (ack : nat -> bool) (s : State) : bool * State :=
  i2c_attempts 5 0 ack s.

Fixpoint mpu_attempts (n i : nat) (ok : nat -> bool) (s : State) : bool * State :=
  match n with
  | O => (false, s)
  | S n' =>
      let s1 := emit [MpuBegin MPU_ADDRESS] s in
      if ok i then (true, s1)
      else mpu_attempts n' (S i) ok (emit [Delay 100] s1)
  end.

Definition initializeMPU (ok : nat -> bool) (s : State) : bool * State :=
  mpu_attempts 5 0 ok s.

Fixpoint oled_attempts (n i : nat) (ok : nat -> bool) (s : State) : bool * State :=
  match n with
  | O => (false, s)
  | S n' =>
      let s1 := emit [OledBegin OLED_ADDRESS] s in
      if ok i then (true, s1)
      else oled_attempts n' (S i) ok (emit [Delay 100] s1)
  end.

Definition initializeOLED (ok : nat -> bool) (s : State) : bool * State :=
  oled_attempts 5 0 ok s.

Definition setup (b : Boot) : System :=
  let s0 := emit [SerialBegin 115200; Delay 2000; PinModePullup BUTTON_PIN] power_on in
  let (i2c_initialized, s1) := initializeI2C (i2c_ack b) s0 in
  if negb i2c_initialized then
    Halted (emit [SerialPrintln "I2C initialization failed!"] s1)
  else
    let (mpu_initialized, s2) := initializeMPU (mpu_ok b) s1 in
    if negb mpu_initialized then
      Halted (emit [SerialPrintln "MPU6050 initialization failed!"] s2)
    else
      let (oled_initialized, s3) := initializeOLED (oled_ok b) s2 in
      let s4 :=
        if negb oled_initialized then
          emit [SerialPrintln "OLED initialization failed - continuing without display"] s3
        else s3 in
      Running (showStartScreen (emit [MpuConfigure] s4)).

(** ** The game *)

(** The playback loop [for (int i = 0; i < currentLevel; i++)], [n]
    iterations remaining. *)
Fixpoint show_moves (n : nat) (i : Z) (s : State) : option State :=
  match n with
  | O => Some s
  | S n' =>
      d ← sequence_at s i;
      show_moves n' (i + 1)
        (emit [Delay MOVE_DELAY; ClearDisplay; DisplayShow; Delay 300] (showArrow d s))
  end.

Definition playSequence (now : Z) (s : State) : option State :=
  let s1 := emit [ClearDisplay; SetTextSize 1; SetTextColor WHITE; SetCursor 0 0;
                  PrintStr "Level "; PrintlnInt (currentLevel s); DisplayShow;
                  Delay 1000] s in
  s2 ← show_moves (Z.to_nat (currentLevel s1)) 0 s1;
  Some (set_lastInputTime (millis now) s2).

(** The generation loop [for (int i = 0; i < MAX_LEVEL; i++)]. *)
Fixpoint fill_sequence (n i : nat) (draws : nat -> Z) (seq : list Z) : list Z :=
  match n with
  | O => seq
  | S n' => fill_sequence n' (S i) draws (<[i := random 4 (draws i)]> seq)
  end.

Definition startGame (seed : Z) (draws : nat -> Z) (now : Z) (s : State) : option State :=
  let s1 := set_currentLevel 1 (set_gameOver false (set_gameStarted true s)) in
  let s2 := emit [RandomSeed seed] s1 in
  let s3 := set_sequence (fill_sequence (Z.to_nat MAX_LEVEL) 0 draws (sequence s2)) s2 in
  playSequence now s3.

Definition resetGame (s : State) : State :=
  set_gameStarted false (showStartScreen (set_gameOver false s)).

Definition handlePlayerMove (move : Z) (t_mv t_nx : Z) (s : State) : option State :=
  let s1 := emit [Delay 300; ClearDisplay; DisplayShow] (UpArrow s) in
  expected ← sequence_at s1 (currentMove s1);
  if move =? expected then
    let s2 := set_lastInputTime (millis t_mv)
                (set_currentMove (wrap_int (currentMove s1 + 1)) s1) in
    if currentLevel s2 <=? currentMove s2 then
      let s3 := set_currentLevel (wrap_int (currentLevel s2 + 1))
                  (set_currentMove 0 s2) in
      if MAX_LEVEL <? currentLevel s3 then
        Some (showGameOverScreen
                (set_gameOver true (emit (win_screen ++ [Delay 3000]) s3)))
      else playSequence t_nx s3
    else Some s2
  else Some (showGameOverScreen (set_gameOver true s1)).

Definition checkPlayerInput (now : Z) (r : Samples) (t_mv t_nx : Z) (s : State)
  : option State :=
  if INPUT_TIMEOUT <? elapsed (millis now) (lastInputTime s) then
    Some (showGameOverScreen (set_gameOver true s))
  else
    let s1 := emit [MpuGetEvent] s in
    if isTiltUp (at_up r) then handlePlayerMove 0 t_mv t_nx s1 else
    let s2 := emit [MpuGetEvent] s1 in
    if isTiltDown (at_down r) then handlePlayerMove 1 t_mv t_nx s2 else
    let s3 := emit [MpuGetEvent] s2 in
    if isTiltLeft (at_left r) then handlePlayerMove 2 t_mv t_nx s3 else
    let s4 := emit [MpuGetEvent] s3 in
    if isTiltRight (at_right r) then handlePlayerMove 3 t_mv t_nx s4 else
    Some s4.

(** The four statements of [loop], in order, and [loop] itself. *)
Definition recovery (t : Tick) (s : State) : State :=
  if 60000 <? elapsed (millis (t_loop t)) (lastRecovery s) then
    set_lastRecovery (millis (t_recovered t))
      (emit [WireEnd; WireBegin I2C_SDA I2C_SCL; WireSetClock I2C_SPEED] s)
  else s.

Definition start_phase (t : Tick) (s : State) : option State :=
  if negb (gameStarted s) && btn_start t then
    startGame (adc t) (raw t) (t_shown t) (emit [Delay 200] s)
  else Some s.

Definition game_phase (t : Tick) (s : State) : option State :=
  if gameStarted s && negb (gameOver s) then
    checkPlayerInput (t_check t) (acc t) (t_move t) (t_next t) s
  else Some s.

Definition reset_phase (t : Tick) (s : State) : State :=
  if gameOver s && btn_reset t then resetGame (emit [Delay 200] s) else s.

Definition loop (t : Tick) (s : State) : option State :=
  s2 ← start_phase t (recovery t s);
  s3 ← game_phase t s2;
  Some (emit [Delay 50] (reset_phase t s3)).

(** One step of the board: an iteration of [loop], or of the [while (1)]
    a failed bring-up spins in. *)
Definition system_step (t : Tick) (sys : System) : option System :=
  match sys with
  | Halted s => Some (Halted (emit [Delay 100] s))
  | Running s => Running <$> loop t s
  end.

Fixpoint system_run (ts : list Tick) (sys : System) : option System :=
  match ts with
  | [] => Some sys
  | t :: ts' => sys' ← system_step t sys; system_run ts' sys'
  end.

Fixpoint run (ts : list Tick) (s : State) : option State :=
  match ts with
  | [] => Some s
  | t :: ts' => s' ← loop t s; run ts' s'
  end.

End Sketch.

(** ** Concrete inputs for the executable examples *)

(** A float unit for running the model: double-precision arithmetic and a
    low-order approximation of the arc tangent (within a quarter of a degree),
    enough to classify readings that are well away from the thresholds. *)
Definition pi : float := 0x1.921fb54442d18p+1%float.

Definition atan_unit (z : float) : float :=
  (z * (pi / 4 + 0.2734375 * (1 - abs z)))%float.

Definition atan_approx (z : float) : float :=
  if (abs z <=? 1)%float then atan_unit z
  else if (0 <? z)%float then (pi / 2 - atan_unit (1 / z))%float
  else (- (pi / 2) - atan_unit (1 / z))%float.

Definition atan2_approx (y x : float) : float :=
  if (0 <? x)%float then atan_approx (y / x)
  else if (x <? 0)%float then
    if (y <? 0)%float then (atan_approx (y / x) - pi)%float
    else (atan_approx (y / x) + pi)%float
  else if (0 <? y)%float then (pi / 2)%float
  else if (y <? 0)%float then (- (pi / 2))%float
  else 0%float.

Definition bench_unit : FloatUnit :=
  {| f_mul := PrimFloat.mul; f_add := PrimFloat.add; f_sqrt := PrimFloat.sqrt;
     f_atan2 := atan2_approx; f_degrees := fun x => (x * 180 / pi)%float |}.

(** A float unit whose angles all come out as [p], for readings that sit
    exactly on a threshold. *)
Definition dial_unit (p : float) : FloatUnit :=
  {| f_mul := PrimFloat.mul; f_add := PrimFloat.add; f_sqrt := PrimFloat.sqrt;
     f_atan2 := atan2_approx; f_degrees := fun _ => p |}.

(** The board lying flat, and tilted by about 45 degrees each way (m/s^2). *)
Definition flat : Accel := mkAccel 0 0 9.75.
Definition tilted_up : Accel := mkAccel 7 0 7.
Definition tilted_down : Accel := mkAccel (-7) 0 7.
Definition tilted_left : Accel := mkAccel 0 (-7) 7.
Definition tilted_right : Accel := mkAccel 0 7 7.

(** The board held in one position for a whole poll. *)
Definition hold (a : Accel) : Samples := mkSamples a a a a.

(** The reading that makes the classifier report direction [d]. *)
Definition reading_for (d : Z) : Accel :=
  match d with
  | 0 => tilted_up
  | 1 => tilted_down
  | 2 => tilted_left
  | 3 => tilted_right
  | _ => flat
  end.

(** Ticks of a bench session, all taken at uptime [now]: nothing happens;
    the button is held; the board is held at [a]. *)
Definition quiet_tick (now : Z) : Tick :=
  mkTick now now false 0 (fun _ => 0) now now (hold flat) now now false.
Definition button_tick (now : Z) (draws : nat -> Z) : Tick :=
  mkTick now now true 0 draws now now (hold flat) now now true.
Definition tilt_tick (now : Z) (a : Accel) : Tick :=
  mkTick now now false 0 (fun _ => 0) now now (hold a) now now false.

(** A random source that yields the elements of [l] in turn. *)
Definition draws_of (l : list Z) : nat -> Z := fun i => default 0 (l !! i).

(** ** Reading the game state off the flags *)

(** [ShowingSequence] is never read off: the playback blocks inside
    [playSequence], so no call of [loop] begins or ends in it. *)
Definition gameState (s : State) : GameState :=
  if gameOver s then (if MAX_LEVEL <? currentLevel s then Won else Lost)
  else if gameStarted s then AwaitingInput else Idle.

(** The array has its declared size, the cursor indexes into it, the level
    counter is between 1 and MAX_LEVEL + 1, the latter only outside a running
    game, and only a game that was started is over. *)
Definition inv (s : State) : Prop :=
  length (sequence s) = Z.to_nat MAX_LEVEL ∧
  0 ≤ currentMove s < MAX_LEVEL ∧
  1 ≤ currentLevel s ≤ MAX_LEVEL + 1 ∧
  (gameStarted s = true → gameOver s = false → currentLevel s ≤ MAX_LEVEL) ∧
  (gameOver s = true → gameStarted s = true).

(** The sequence [startGame] generates from the random source. *)
Definition generated (draws : nat -> Z) : list Z :=
  map (fun i => random 4 (draws i)) (seq 0 (Z.to_nat MAX_LEVEL)).

(** The commands [handlePlayerMove] issues before it looks at the move. *)
Definition feedback : list Cmd := up_glyph ++ [Delay 300; ClearDisplay; DisplayShow].

(** ** Vocabulary of the game properties *)

Section Vocabulary.

Context {fpu : FloatUnit}.

(** The gesture one poll classifies: the cascade of [checkPlayerInput], each
    test on its own sample, Up before Down before Left before Right. *)
Definition classify (r : Samples) : option Z :=
  if isTiltUp (at_up r) then Some 0
  else if isTiltDown (at_down r) then Some 1
  else if isTiltLeft (at_left r) then Some 2
  else if isTiltRight (at_right r) then Some 3
  else None.

(** The timeout test of [checkPlayerInput]. *)
Definition timed_out (now : Z) (s : State) : bool :=
  INPUT_TIMEOUT <? elapsed (millis now) (lastInputTime s).

(** The state in which an iteration of [loop] reaches its game logic. *)
Definition entering (t : Tick) (s : State) : option State :=
  start_phase t (recovery t s).

(** What the player has seen: the playback of the level being played showed
    [sequence[0]] to [sequence[currentLevel - 1]], in this order; [shown s p]
    is the element it showed at position [p]. *)
Definition shown (s : State) (p : Z) : option Z :=
  if (0 <=? p) && (p <? currentLevel s) then sequence_at s p else None.

(** Whether the board shows a gesture in this iteration. *)
Definition answered (t : Tick) : Z :=
  match classify (acc t) with Some _ => 1 | None => 0 end.

(** A player who repeats what was shown.  The player keeps count of the
    gestures made since the last playback, [p]; the count starts at 0 when a
    game starts and when a level has been played back.  In every iteration,
    once a game is on the button is left alone, and whenever input is polled
    the poll comes within the timeout and the board shows no gesture or the
    element the playback showed at position [p]. *)
Fixpoint faithful_run (ts : list Tick) (p : Z) (s : State) : Prop :=
  match ts with
  | [] => True
  | t :: ts' =>
      (gameStarted s = true → btn_reset t = false) ∧
      ∀ e, entering t s = Some e →
        let p0 := if gameStarted s then p else 0 in
        (gameState e = AwaitingInput →
           timed_out (t_check t) e = false ∧
           (classify (acc t) = None ∨ classify (acc t) = shown e p0)) ∧
        ∀ s', loop t s = Some s' →
          faithful_run ts'
            (if currentLevel s' =? currentLevel e then p0 + answered t else 0) s'
  end.

(** [faithful_run] as a check that can be run. *)
Fixpoint faithful_runb (ts : list Tick) (p : Z) (s : State) : bool :=
  match ts with
  | [] => true
  | t :: ts' =>
      implb (gameStarted s) (negb (btn_reset t)) &&
      match entering t s with
      | Some e =>
          let p0 := if gameStarted s then p else 0 in
          implb (negb (gameOver e) && gameStarted e)
            (negb (timed_out (t_check t) e) &&
             match classify (acc t) with
             | None => true
             | Some g => bool_decide (Some g = shown e p0)
             end) &&
          match loop t s with
          | Some s' =>
              faithful_runb ts'
                (if currentLevel s' =? currentLevel e then p0 + answered t else 0) s'
          | None => true
          end
      | None => true
      end
  end.

(** The number of iterations in which the board shows a gesture. *)
Fixpoint gestures (ts : list Tick) : Z :=
  match ts with
  | [] => 0
  | t :: ts' => answered t + gestures ts'
  end.

End Vocabulary.

(** The moves of a whole game: 1 + 2 + ... + MAX_LEVEL. *)
Definition moves_to_win : Z := MAX_LEVEL * (MAX_LEVEL + 1) / 2.

(** The ticks of a player who repeats every level of [l] as it was shown,
    one gesture an iteration, all taken at uptime [now]. *)
Definition flawless_ticks (now : Z) (l : list Z) : list Tick :=
  flat_map (fun n => map (fun d => tilt_tick now (reading_for d)) (take n l))
           (seq 1 (Z.to_nat MAX_LEVEL)).

(** A game that is on, has not been lost, and in which the engine's cursor
    and the player's count [p] agree: while it runs the cursor is within the
    level and equals [p]; once over, it was won. *)
Definition in_step (p : Z) (s : State) : Prop :=
  inv s ∧ gameStarted s = true ∧
  (gameOver s = false → currentMove s < currentLevel s ∧ p = currentMove s) ∧
  (gameOver s = true → currentLevel s = MAX_LEVEL + 1 ∧ currentMove s = 0).

(** Twice the number of moves still to make before the game is won. *)
Definition remaining2 (s : State) : Z :=
  MAX_LEVEL * (MAX_LEVEL + 1) - (currentLevel s - 1) * currentLevel s
  - 2 * Z.min (currentMove s) (currentLevel s - 1).

(** ** Vocabulary of the bring-up properties *)

(** The first attempt, among [n] attempts numbered from [i], that succeeds. *)
Fixpoint first_success (n i : nat) (ok : nat -> bool) : option nat :=
  match n with
  | O => None
  | S n' => if ok i then Some i else first_success n' (S i) ok
  end.

(** [k] failed attempts, each followed by its 100 ms pause. *)
Fixpoint failed_attempts (probe : list Cmd) (k : nat) : list Cmd :=
  match k with
  | O => []
  | S k' => probe ++ [Delay 100] ++ failed_attempts probe k'
  end.

(** The retry policy in the words of the specification: up to five attempts,
    100 ms after each failed one (the fifth included), success at the first
    attempt that succeeds and failure once five have failed. *)
Definition retry_policy (probe : list Cmd) (ok : nat -> bool) (s : State) : bool * State :=
  match first_success 5 0 ok with
  | Some j => (true, emit (failed_attempts probe j ++ probe) s)
  | None => (false, emit (failed_attempts probe 5) s)
  end.

Definition i2c_probe : list Cmd :=
  [WireBegin I2C_SDA I2C_SCL; WireSetClock I2C_SPEED; WireProbe MPU_ADDRESS].
Definition mpu_probe : list Cmd := [MpuBegin MPU_ADDRESS].
Definition oled_probe : list Cmd := [OledBegin OLED_ADDRESS].

(** ** A bench session *)

(** The sequence of the bench games, and a random source that yields it. *)
Definition bench_sequence : list Z := [0; 1; 2; 3; 0; 1; 2; 3; 0; 1].
Definition bench_draws : nat -> Z := draws_of bench_sequence.

(** A game at level 3 that has accepted one move of the level, 1000 ms into
    the uptime. *)
Definition bench_awaiting : State :=
  mkState bench_sequence 3 true false 1000 1 0 [].

(** The same game, lost at the third move of level 3. *)
Definition bench_lost : State :=
  mkState bench_sequence 3 true true 600 2 0 [].

(** Power on, start, play levels 1 and 2 and two moves of level 3, then tilt
    up where Left is expected. *)
Definition losing_session : list Tick :=
  [button_tick 100 bench_draws;
   tilt_tick 200 tilted_up;
   tilt_tick 300 tilted_up; tilt_tick 400 tilted_down;
   tilt_tick 500 tilted_up; tilt_tick 600 tilted_down; tilt_tick 700 tilted_up].

(** The same, followed by a press of the button to leave the game-over
    screen: the board waits for the next game. *)
Definition lost_and_reset : list Tick :=
  losing_session ++ [button_tick 800 bench_draws].

(** The next game: a press of the button, then the player repeats every
    level of the bench sequence, each gesture 100 ms after the last time
    stamp. *)
Definition faithful_game : list Tick :=
  button_tick 900 bench_draws :: flawless_ticks 1000 bench_sequence.

(** The losing session, followed by a press of the button to leave the
    game-over screen and a second press to start the next game. *)
Definition restart_session : list Tick :=
  losing_session ++ [button_tick 800 bench_draws; button_tick 900 bench_draws].

(** Boards whose bus never answers, whose sensor never answers, and whose
    display never answers. *)
Definition dead_bus : Boot := mkBoot (fun _ => false) (fun _ => true) (fun _ => true).
Definition dead_sensor : Boot := mkBoot (fun _ => true) (fun _ => false) (fun _ => true).
Definition dead_display : Boot := mkBoot (fun _ => true) (fun _ => true) (fun _ => false).

(** ** Vocabulary of the playback, screen and timing properties *)

(** The commands [showArrow] issues for a direction code: one of the four
    glyphs, or nothing for a code outside 0..3. *)
Definition glyph_of (d : Z) : list Cmd :=
  match d with
  | 0 => up_glyph
  | 1 => down_glyph
  | 2 => left_glyph
  | 3 => right_glyph
  | _ => []
  end.

(** One entry of the playback: the glyph, MOVE_DELAY, a blank screen, 300 ms. *)
Definition move_frame (d : Z) : list Cmd :=
  glyph_of d ++ [Delay MOVE_DELAY; ClearDisplay; DisplayShow; Delay 300].

(** The level announcement and its one-second pause. *)
Definition level_header (n : Z) : list Cmd :=
  [ClearDisplay; SetTextSize 1; SetTextColor WHITE; SetCursor 0 0;
   PrintStr "Level "; PrintlnInt n; DisplayShow; Delay 1000].

(** The playback of level [n] of the sequence [l]. *)
Definition playback (n : Z) (l : list Z) : list Cmd :=
  level_header n ++ flat_map move_frame (take (Z.to_nat n) l).

(** The game-over screen reporting [n] levels. *)
Definition game_over_screen (n : Z) : list Cmd :=
  [ClearDisplay; SetTextSize 1; SetTextColor WHITE; SetCursor 0 0;
   PrintlnStr "Game Over!"; PrintStr "Level: "; PrintlnInt n;
   PrintlnStr EmptyString; PrintlnStr "Press button";
   PrintlnStr "to play again"; DisplayShow].

(** The time a trace spends in [delay], in ms. *)
Fixpoint blocked_ms (tr : list Cmd) : Z :=
  match tr with
  | [] => 0
  | Delay ms :: tr' => ms + blocked_ms tr'
  | _ :: tr' => blocked_ms tr'
  end.

(** The commands of an iteration in which nothing happens: the pacing delay
    and the bus recovery. *)
Definition housekeeping (c : Cmd) : bool :=
  match c with
  | Delay _ | WireEnd | WireBegin _ _ | WireSetClock _ => true
  | _ => false
  end.

(** The commands that address the display. *)
Definition display_cmd (c : Cmd) : bool :=
  match c with
  | OledBegin _ | ClearDisplay | SetTextSize _ | SetTextColor _ | SetCursor _ _
  | PrintStr _ | PrintlnStr _ | PrintlnInt _ | FillRect _ _ _ _ _
  | FillTriangle _ _ _ _ _ _ _ | DisplayShow => true
  | _ => false
  end.

(** The number of attempts of a bring-up loop that fail. *)
Definition failures (ok : nat -> bool) : nat :=
  match first_success 5 0 ok with
  | Some j => j
  | None => 5
  end.

(** The state a board is in, halted or running. *)
Definition state_of (sys : System) : State :=
  match sys with
  | Halted s => s
  | Running s => s
  end.

(** A game whose last move was accepted one second before the uptime counter
    of [millis] rolls over. *)
Definition bench_rollover : State :=
  mkState bench_sequence 3 true false (2 ^ 32 - 1000) 1 0 [].

(** The bench game at its last move: level 10, nine moves accepted. *)
Definition bench_last_move : State :=
  mkState bench_sequence 10 true false 1000 9 0 [].

(** The bench game at level 1 with the cursor left at 2 by the game before. *)
Definition bench_stale : State :=
  mkState bench_sequence 1 true false 1000 2 0 [].

(** A game at level 3 of a sequence that shares its first three elements
    with the bench sequence and no other. *)
Definition bench_other : State :=
  mkState [0; 1; 2; 0; 3; 3; 0; 0; 2; 2] 3 true false 1000 1 0 [].

(** The bench game at the last move of level 3. *)
Definition bench_level_end : State :=
  mkState bench_sequence 3 true false 1000 2 0 [].

(** The bench game with the last bus recovery 70 s before the rollover. *)
Definition bench_before_rollover : State :=
  mkState bench_sequence 3 true false 1000 1 (2 ^ 32 - 70000) [].

(** An iteration at uptime [now] with the board held at [a] and the button,
    up at the start test, down at the reset test. *)
Definition late_button_tick (now : Z) (a : Accel) : Tick :=
  mkTick now now false 0 bench_draws now now (hold a) now now true.

(** An iteration at uptime [now] that starts a game while the board is held
    at [a]. *)
Definition tilted_start_tick (now : Z) (a : Accel) : Tick :=
  mkTick now now true 0 bench_draws now now (hold a) now now false.

(** ** Basic facts *)

Lemma wrap_int_small z : - 2 ^ 31 ≤ z < 2 ^ 31 → wrap_int z = z.
Proof. intros H. unfold wrap_int. rewrite Z.mod_small; lia. Qed.

Lemma elapsed_exact now last :
  0 ≤ last ≤ now → now - last < 2 ^ 32 → elapsed (millis now) (millis last) = now - last.
Proof.
  intros H1 H2. unfold elapsed, millis.
  rewrite <- Zminus_mod. apply Z.mod_small. lia.
Qed.

Lemma emit_emit cs1 cs2 s : emit cs2 (emit cs1 s) = emit (cs1 ++ cs2) s.
Proof. unfold emit; simpl. by rewrite app_assoc. Qed.

Lemma emit_nil s : emit [] s = s.
Proof. destruct s; unfold emit; simpl. by rewrite app_nil_r. Qed.

Lemma sequence_at_Some s i :
  0 ≤ i → (Z.to_nat i < length (sequence s))%nat → ∃ d, sequence_at s i = Some d.
Proof.
  intros Hi Hlt. unfold sequence_at.
  destruct (Z.ltb_spec i 0) as [?|_]; [lia|].
  by apply lookup_lt_is_Some_2.
Qed.

Lemma sequence_at_emit cs s i : sequence_at (emit cs s) i = sequence_at s i.
Proof. reflexivity. Qed.

Lemma showArrow_emit d s : ∃ cs, showArrow d s = emit cs s.
Proof.
  unfold showArrow, UpArrow, DownArrow, LeftArrow, RightArrow.
  destruct d as [|[[[]|[]|]|[[]|[]|]|]|]; eauto; exists []; by rewrite emit_nil.
Qed.

Lemma random_4_range draw : 0 ≤ random 4 draw < 4.
Proof. unfold random; simpl. apply Z.mod_pos_bound; lia. Qed.

Lemma length_fill_sequence n i draws l :
  length (fill_sequence n i draws l) = length l.
Proof.
  revert i l; induction n as [|n IH]; intros i l; simpl; [done|].
  by rewrite IH, length_insert.
Qed.

Lemma lookup_fill_sequence n i draws l j :
  (i + n ≤ length l)%nat →
  fill_sequence n i draws l !! j =
    if decide (i ≤ j < i + n)%nat then Some (random 4 (draws j)) else l !! j.
Proof.
  revert i l; induction n as [|n IH]; intros i l Hlen; simpl.
  - case_decide; [lia|done].
  - rewrite IH by (rewrite length_insert; lia).
    destruct (decide (i = j)) as [->|Hne].
    + rewrite list_lookup_insert_eq by lia.
      repeat case_decide; (done || lia).
    + rewrite list_lookup_insert_ne by done.
      repeat case_decide; (done || lia).
Qed.

Lemma fill_sequence_generated draws l :
  length l = Z.to_nat MAX_LEVEL →
  fill_sequence (Z.to_nat MAX_LEVEL) 0 draws l = generated draws.
Proof.
  intros Hlen. apply list_eq; intros j.
  rewrite lookup_fill_sequence by lia. unfold generated.
  rewrite list_lookup_fmap.
  case_decide as Hj.
  - rewrite lookup_seq_lt by lia. done.
  - rewrite lookup_seq_ge by lia. simpl.
    apply lookup_ge_None_2. lia.
Qed.

Lemma length_generated draws : length (generated draws) = Z.to_nat MAX_LEVEL.
Proof. unfold generated. by rewrite length_map, length_seq. Qed.

Lemma generated_range draws : Forall (fun d => 0 ≤ d < 4) (generated draws).
Proof.
  unfold generated. apply Forall_fmap, Forall_forall.
  intros i _. apply random_4_range.
Qed.

Lemma gameState_Lost s :
  gameState s = Lost ↔ gameOver s = true ∧ currentLevel s ≤ MAX_LEVEL.
Proof.
  unfold gameState. destruct (gameOver s), (gameStarted s);
    destruct (Z.ltb_spec MAX_LEVEL (currentLevel s)); split; intros Hx;
    try done; try (split; [done|lia]); destruct Hx; (done || lia).
Qed.

Lemma gameState_Won s :
  gameState s = Won ↔ gameOver s = true ∧ MAX_LEVEL < currentLevel s.
Proof.
  unfold gameState. destruct (gameOver s), (gameStarted s);
    destruct (Z.ltb_spec MAX_LEVEL (currentLevel s)); split; intros Hx;
    try done; try (split; [done|lia]); destruct Hx; (done || lia).
Qed.

Lemma gameState_AwaitingInput s :
  gameState s = AwaitingInput ↔ gameOver s = false ∧ gameStarted s = true.
Proof.
  unfold gameState. destruct (gameOver s), (gameStarted s);
    destruct (Z.ltb_spec MAX_LEVEL (currentLevel s)); split; intros Hx;
    try done; destruct Hx; done.
Qed.

Lemma gameState_Idle s :
  gameState s = Idle ↔ gameOver s = false ∧ gameStarted s = false.
Proof.
  unfold gameState. destruct (gameOver s), (gameStarted s);
    destruct (Z.ltb_spec MAX_LEVEL (currentLevel s)); split; intros Hx;
    try done; destruct Hx; done.
Qed.

(** Equality of two traces up to the bracketing of their appends. *)
Ltac trace_eq := cbn; rewrite <- ?app_assoc; cbn; reflexivity.

Section Properties.

Context {fpu : FloatUnit}.

(** ** Playback *)

Lemma show_moves_inv n i s s' :
  show_moves n i s = Some s' → ∃ cs, s' = emit cs s.
Proof.
  revert i s; induction n as [|n IH]; intros i s H; simpl in H.
  - exists []. rewrite emit_nil. congruence.
  - destruct (sequence_at s i) as [d|]; simpl in H; [|done].
    destruct (showArrow_emit d s) as [c1 Hc1]. rewrite Hc1, emit_emit in H.
    apply IH in H as [cs ->]. rewrite emit_emit. eauto.
Qed.

Lemma show_moves_defined n i s :
  0 ≤ i → (Z.to_nat i + n ≤ length (sequence s))%nat → is_Some (show_moves n i s).
Proof.
  revert i s; induction n as [|n IH]; intros i s Hi Hlen; simpl; [by eexists|].
  destruct (sequence_at_Some s i) as [d Hd]; [lia|lia|]. rewrite Hd; simpl.
  destruct (showArrow_emit d s) as [c1 ->]. rewrite emit_emit.
  apply IH; [lia|]. simpl. lia.
Qed.

Lemma playSequence_inv now s s' :
  playSequence now s = Some s' →
  ∃ cs, s' = set_lastInputTime (millis now) (emit cs s).
Proof.
  unfold playSequence. intros H.
  destruct (show_moves _ _ _) as [s2|] eqn:E; simpl in H; [|done].
  apply show_moves_inv in E as [cs ->]. rewrite emit_emit in H.
  injection H as <-. eauto.
Qed.

Lemma playSequence_defined now s :
  length (sequence s) = Z.to_nat MAX_LEVEL → currentLevel s ≤ MAX_LEVEL →
  ∃ cs, playSequence now s = Some (set_lastInputTime (millis now) (emit cs s)).
Proof.
  intros Hlen Hlv.
  destruct (show_moves_defined (Z.to_nat (currentLevel s)) 0
              (emit [ClearDisplay; SetTextSize 1; SetTextColor WHITE; SetCursor 0 0;
                     PrintStr "Level "; PrintlnInt (currentLevel s); DisplayShow;
                     Delay 1000] s)) as [s2 E]; [lia|simpl; lia|].
  assert (playSequence now s = Some (set_lastInputTime (millis now) s2)) as Hp.
  { unfold playSequence. simpl. simpl in E. by rewrite E. }
  destruct (playSequence_inv _ _ _ Hp) as [cs Hcs]. rewrite Hp, Hcs. eauto.
Qed.

(** ** One move *)

Lemma handlePlayerMove_spec move t1 t2 s e :
  length (sequence s) = Z.to_nat MAX_LEVEL →
  1 ≤ currentLevel s ≤ MAX_LEVEL →
  0 ≤ currentMove s < MAX_LEVEL →
  sequence_at s (currentMove s) = Some e →
  ∃ s' rest,
    handlePlayerMove move t1 t2 s = Some s' ∧
    sequence s' = sequence s ∧ gameStarted s' = gameStarted s ∧
    lastRecovery s' = lastRecovery s ∧
    trace s' = trace s ++ feedback ++ rest ∧
    ((move ≠ e ∧ gameOver s' = true ∧ currentLevel s' = currentLevel s ∧
      currentMove s' = currentMove s ∧ lastInputTime s' = lastInputTime s)
     ∨ (move = e ∧ currentMove s + 1 < currentLevel s ∧ gameOver s' = gameOver s ∧
        currentLevel s' = currentLevel s ∧ currentMove s' = currentMove s + 1 ∧
        lastInputTime s' = millis t1)
     ∨ (move = e ∧ currentLevel s ≤ currentMove s + 1 ∧ currentLevel s < MAX_LEVEL ∧
        gameOver s' = gameOver s ∧ currentLevel s' = currentLevel s + 1 ∧
        currentMove s' = 0 ∧ lastInputTime s' = millis t2)
     ∨ (move = e ∧ currentLevel s ≤ currentMove s + 1 ∧ currentLevel s = MAX_LEVEL ∧
        gameOver s' = true ∧ currentLevel s' = MAX_LEVEL + 1 ∧
        currentMove s' = 0 ∧ lastInputTime s' = millis t1)).
Proof.
  intros Hlen Hlv Hcur He.
  unfold handlePlayerMove, UpArrow. unfold MAX_LEVEL in *. rewrite emit_emit.
  rewrite sequence_at_emit. cbn [currentMove emit]. rewrite He. cbn [mbind option_bind].
  destruct (Z.eqb_spec move e) as [Heq|Hne].
  - rewrite (wrap_int_small (currentMove s + 1)) by lia.
    cbn [currentLevel currentMove set_lastInputTime set_currentMove emit].
    destruct (Z.leb_spec (currentLevel s) (currentMove s + 1)) as [Hdone|Hmore].
    + rewrite (wrap_int_small (currentLevel s + 1)) by lia.
      cbn [currentLevel set_currentLevel].
      destruct (Z.ltb_spec 10 (currentLevel s + 1)) as [Hwin|Hnext].
      * eexists _, _. split; [reflexivity|]. do 3 (split; [reflexivity|]).
        split; [trace_eq|]. cbn.
        right; right; right. repeat split; (done || lia).
      * match goal with |- context [playSequence t2 ?x] =>
          destruct (playSequence_defined t2 x) as [cs ->]; [done|cbn; unfold MAX_LEVEL; lia|]
        end.
        eexists _, _. split; [reflexivity|]. do 3 (split; [reflexivity|]).
        split; [trace_eq|]. cbn.
        right; right; left. repeat split; (done || lia).
    + eexists _, _. split; [reflexivity|]. do 3 (split; [reflexivity|]).
      split; [trace_eq|]. cbn.
      right; left. repeat split; (done || lia).
  - eexists _, _. split; [reflexivity|]. do 3 (split; [reflexivity|]).
    split; [trace_eq|]. cbn.
    left. repeat split; done.
Qed.

(** ** One poll *)

Lemma checkPlayerInput_timed_out now r t1 t2 s :
  timed_out now s = true →
  checkPlayerInput now r t1 t2 s = Some (showGameOverScreen (set_gameOver true s)).
Proof. unfold timed_out, checkPlayerInput. by intros ->. Qed.

Lemma checkPlayerInput_in_time now r t1 t2 s :
  timed_out now s = false →
  checkPlayerInput now r t1 t2 s =
    match classify r with
    | Some m => handlePlayerMove m t1 t2 (emit (replicate (Z.to_nat (m + 1)) MpuGetEvent) s)
    | None => Some (emit (replicate 4 MpuGetEvent) s)
    end.
Proof.
  unfold timed_out, checkPlayerInput, classify. intros ->.
  repeat (match goal with |- context [if ?b then _ else _] => destruct b end;
          rewrite ?emit_emit; try reflexivity).
Qed.

Lemma checkPlayerInput_spec now r t1 t2 s :
  length (sequence s) = Z.to_nat MAX_LEVEL →
  1 ≤ currentLevel s ≤ MAX_LEVEL →
  0 ≤ currentMove s < MAX_LEVEL →
  ∃ s',
    checkPlayerInput now r t1 t2 s = Some s' ∧
    sequence s' = sequence s ∧ gameStarted s' = gameStarted s ∧
    lastRecovery s' = lastRecovery s ∧
    (∃ rest, trace s' = trace s ++ rest) ∧
    ((gameOver s' = true ∧ currentLevel s' = currentLevel s ∧
      currentMove s' = currentMove s ∧
      (timed_out now s = true ∨
       ∃ m, classify r = Some m ∧ sequence_at s (currentMove s) ≠ Some m))
     ∨ (timed_out now s = false ∧ classify r = None ∧ gameOver s' = gameOver s ∧
        currentLevel s' = currentLevel s ∧ currentMove s' = currentMove s ∧
        lastInputTime s' = lastInputTime s)
     ∨ (timed_out now s = false ∧ is_Some (classify r) ∧
        classify r = sequence_at s (currentMove s) ∧
        ((currentMove s + 1 < currentLevel s ∧ gameOver s' = gameOver s ∧
          currentLevel s' = currentLevel s ∧ currentMove s' = currentMove s + 1)
         ∨ (currentLevel s ≤ currentMove s + 1 ∧ currentLevel s < MAX_LEVEL ∧
            gameOver s' = gameOver s ∧ currentLevel s' = currentLevel s + 1 ∧
            currentMove s' = 0)
         ∨ (currentLevel s ≤ currentMove s + 1 ∧ currentLevel s = MAX_LEVEL ∧
            gameOver s' = true ∧ currentLevel s' = MAX_LEVEL + 1 ∧
            currentMove s' = 0)))).
Proof.
  intros Hlen Hlv Hcur.
  destruct (timed_out now s) eqn:Hto.
  - rewrite checkPlayerInput_timed_out by done.
    eexists. split; [done|]. do 3 (split; [done|]).
    split; [by eexists|]. left. repeat split; eauto.
  - rewrite checkPlayerInput_in_time by done.
    destruct (classify r) as [m|].
    + destruct (sequence_at_Some s (currentMove s)) as [e He]; [lia|lia|].
      destruct (handlePlayerMove_spec m t1 t2
                  (emit (replicate (Z.to_nat (m + 1)) MpuGetEvent) s) e)
        as (s' & rest & -> & Hseq & Hon & Hrec & Htr & Hcase); cbn; try done.
      exists s'. split; [done|]. cbn in Hseq, Hon, Hrec, Htr, Hcase.
      do 3 (split; [done|]).
      split; [rewrite Htr, <- app_assoc; by eexists|].
      rewrite He.
      destruct Hcase as [(Hne & Ho & Hl & Hc & _)|[(-> & ? & Ho & Hl & Hc & _)|
                         [(-> & ? & ? & Ho & Hl & Hc & _)|(-> & ? & ? & Ho & Hl & Hc & _)]]].
      * left. repeat split; try done. right. exists m. split; [done|congruence].
      * right; right. repeat split; eauto.
      * right; right. repeat split; eauto 10.
      * right; right. repeat split; eauto 10.
    + eexists. split; [done|]. do 3 (split; [done|]).
      split; [by eexists|]. right; left. repeat split; done.
Qed.

(** ** Loss *)

Lemma poll_lost_iff now r t1 t2 s :
  inv s → gameState s = AwaitingInput →
  ∃ s', checkPlayerInput now r t1 t2 s = Some s' ∧
    (gameState s' = Lost ↔
       INPUT_TIMEOUT < elapsed (millis now) (lastInputTime s) ∨
       ∃ g, classify r = Some g ∧ sequence_at s (currentMove s) ≠ Some g).
Proof.
  intros (Hlen & Hcur & Hlv & Hplay & Hterm) [Hover Hon]%gameState_AwaitingInput.
  specialize (Hplay Hon Hover).
  destruct (timed_out now s) eqn:Hto.
  - rewrite checkPlayerInput_timed_out by done. eexists; split; [done|].
    rewrite gameState_Lost; cbn. unfold timed_out in Hto.
    apply Z.ltb_lt in Hto. split; [by left|]. intros _. split; [done|lia].
  - rewrite checkPlayerInput_in_time by done.
    unfold timed_out in Hto. apply Z.ltb_ge in Hto.
    destruct (classify r) as [m|].
    + destruct (sequence_at_Some s (currentMove s)) as [e He]; [lia|lia|].
      destruct (handlePlayerMove_spec m t1 t2
                  (emit (replicate (Z.to_nat (m + 1)) MpuGetEvent) s) e)
        as (s' & rest & -> & _ & _ & _ & _ & Hcase); cbn; try done; try lia.
      exists s'. split; [done|]. rewrite gameState_Lost, He.
      cbn in Hcase. unfold MAX_LEVEL in *.
      destruct Hcase as [(Hne & Ho & Hl & _)|[(-> & _ & Ho & Hl & _)|
                         [(-> & _ & _ & Ho & Hl & _)|(-> & _ & _ & Ho & Hl & _)]]].
      * split; [|intros _; split; [done|lia]].
        intros _. right. exists m. split; [done|]. congruence.
      * split; [intros [? _]; congruence|].
        intros [?|(g & [= <-] & Hg)]; [lia|done].
      * split; [intros [? _]; congruence|].
        intros [?|(g & [= <-] & Hg)]; [lia|done].
      * split; [intros [_ ?]; lia|].
        intros [?|(g & [= <-] & Hg)]; [lia|done].
    + eexists; split; [done|]. rewrite gameState_Lost; cbn.
      split; [intros [? _]; congruence|].
      intros [?|(g & ? & _)]; [lia|done].
Qed.


(** ** The phases of [loop] *)

Lemma startGame_spec seed draws now s :
  length (sequence s) = Z.to_nat MAX_LEVEL →
  ∃ s' cs,
    startGame seed draws now s = Some s' ∧
    s' = set_lastInputTime (millis now)
           (emit cs (set_sequence (generated draws)
              (emit [RandomSeed seed]
                 (set_currentLevel 1 (set_gameOver false (set_gameStarted true s)))))).
Proof.
  intros Hlen. unfold startGame. cbn [sequence emit set_currentLevel set_gameOver set_gameStarted].
  rewrite fill_sequence_generated by done.
  match goal with |- context [playSequence now ?x] =>
    destruct (playSequence_defined now x) as [cs ->]
  end.
  - cbn. apply length_generated.
  - cbn. unfold MAX_LEVEL. lia.
  - eauto.
Qed.

Lemma recovery_same t s :
  sequence (recovery t s) = sequence s ∧ currentLevel (recovery t s) = currentLevel s ∧
  gameStarted (recovery t s) = gameStarted s ∧ gameOver (recovery t s) = gameOver s ∧
  lastInputTime (recovery t s) = lastInputTime s ∧
  currentMove (recovery t s) = currentMove s.
Proof. unfold recovery. by destruct (_ <? _). Qed.

Lemma recovery_inv t s : inv s → inv (recovery t s).
Proof.
  unfold inv. destruct (recovery_same t s) as (-> & -> & -> & -> & _ & ->). done.
Qed.

Lemma start_phase_inv t s :
  inv s →
  ∃ s', start_phase t s = Some s' ∧ inv s' ∧
    currentMove s' = currentMove s ∧
    (negb (gameStarted s) && btn_start t = true →
       sequence s' = generated (raw t) ∧ currentLevel s' = 1 ∧
       gameStarted s' = true ∧ gameOver s' = false) ∧
    (negb (gameStarted s) && btn_start t = false → s' = s).
Proof.
  intros (Hlen & Hcur & Hlv & Hplay & Hterm). unfold start_phase.
  destruct (negb (gameStarted s) && btn_start t) eqn:Hgo.
  - destruct (startGame_spec (adc t) (raw t) (t_shown t) (emit [Delay 200] s))
      as (s' & cs & -> & ->); [done|].
    eexists. split; [done|]. cbn. unfold inv; cbn.
    rewrite length_generated. unfold MAX_LEVEL in *.
    repeat split; (done || lia).
  - exists s. unfold inv. repeat split; (done || lia).
Qed.

Lemma game_phase_inv t s :
  inv s →
  ∃ s', game_phase t s = Some s' ∧ inv s' ∧
    sequence s' = sequence s ∧ gameStarted s' = gameStarted s.
Proof.
  intros (Hlen & Hcur & Hlv & Hplay & Hterm). unfold game_phase.
  destruct (gameStarted s) eqn:Hon, (gameOver s) eqn:Hover; cbn;
    try (exists s; unfold inv; rewrite ?Hon, ?Hover; repeat split; (done || lia)).
  specialize (Hplay eq_refl eq_refl).
  destruct (checkPlayerInput_spec (t_check t) (acc t) (t_move t) (t_next t) s)
    as (s' & -> & Hseq & Hst & _ & _ & Hcase); [done|lia|done|].
  exists s'. split; [done|]. unfold inv. rewrite Hseq, Hst, Hon. unfold MAX_LEVEL in *.
  destruct Hcase as [(Ho & -> & -> & _)|[(_ & _ & Ho & -> & -> & _)|
    (_ & _ & _ & [(? & Ho & -> & ->)|[(? & ? & Ho & -> & ->)|(? & ? & Ho & -> & ->)]])]];
    rewrite ?Ho, ?Hover; repeat split; (done || lia).
Qed.

Lemma reset_phase_inv t s :
  inv s → inv (reset_phase t s) ∧ sequence (reset_phase t s) = sequence s.
Proof.
  intros (Hlen & Hcur & Hlv & Hplay & Hterm). unfold reset_phase.
  destruct (gameOver s && btn_reset t); unfold inv; cbn; repeat split; (done || lia).
Qed.

(** Every iteration of [loop] is defined on a state that satisfies [inv],
    keeps [inv], and replaces the sequence exactly when it starts a game. *)
Lemma loop_inv t s :
  inv s →
  ∃ s', loop t s = Some s' ∧ inv s' ∧
    sequence s' =
      if negb (gameStarted s) && btn_start t then generated (raw t) else sequence s.
Proof.
  intros Hinv. unfold loop.
  pose proof (recovery_inv t s Hinv) as H1.
  destruct (recovery_same t s) as (Hseq & _ & Hon & _).
  destruct (start_phase_inv t _ H1) as (s2 & -> & H2 & _ & Hgo & Hstay). cbn.
  destruct (game_phase_inv t _ H2) as (s3 & -> & H3 & Hseq3 & _). cbn.
  destruct (reset_phase_inv t _ H3) as (H4 & Hseq4).
  eexists. split; [done|]. split.
  - destruct H4 as (? & ? & ? & ? & ?). unfold inv. cbn. done.
  - cbn. rewrite Hseq4, Hseq3. rewrite Hon in *.
    destruct (negb (gameStarted s) && btn_start t).
    + by destruct Hgo.
    + rewrite Hstay by done. done.
Qed.

Lemma power_on_inv : inv power_on.
Proof. unfold inv, power_on, MAX_LEVEL. cbn. repeat split; (done || lia). Qed.

(** Every run from a state that satisfies [inv] is defined: no iteration
    reads outside the array. *)
Lemma run_inv ts s : inv s → ∃ s', run ts s = Some s' ∧ inv s'.
Proof.
  revert s; induction ts as [|t ts IH]; intros s Hinv; cbn; [eauto|].
  destruct (loop_inv t s Hinv) as (s1 & -> & H1 & _). cbn. by apply IH.
Qed.

(** C1 at the level of [loop]: an iteration in which the button is not
    pressed leaves a game that awaits input lost exactly when its poll is
    late or shows a wrong gesture. *)
Lemma loop_lost_iff_late_or_wrong t s :
  inv s → gameState s = AwaitingInput → btn_reset t = false →
  ∃ s', loop t s = Some s' ∧
    (gameState s' = Lost ↔
       INPUT_TIMEOUT < elapsed (millis (t_check t)) (lastInputTime s) ∨
       ∃ g, classify (acc t) = Some g ∧ sequence_at s (currentMove s) ≠ Some g).
Proof.
  intros Hinv Hst Hbtn.
  apply gameState_AwaitingInput in Hst as [Hover Hon].
  destruct (recovery_same t s) as (Hseq & Hlv & Hon1 & Hover1 & Htime & Hcur).
  pose proof (recovery_inv t s Hinv) as Hinv1.
  destruct (poll_lost_iff (t_check t) (acc t) (t_move t) (t_next t)
              (recovery t s) Hinv1) as (s3 & Hs3 & Hiff).
  { apply gameState_AwaitingInput. by rewrite Hover1, Hon1. }
  unfold loop, start_phase, game_phase, reset_phase.
  rewrite Hon1, Hon. cbn. rewrite Hon1, Hon, Hover1, Hover. cbn.
  rewrite Hs3. cbn. rewrite Hbtn, andb_false_r.
  eexists. split; [done|].
  unfold sequence_at in *. rewrite Htime, Hcur, Hseq in Hiff. exact Hiff.
Qed.

(** ** The sequence is written by [startGame] only *)

Lemma playSequence_frame now s s' :
  playSequence now s = Some s' → sequence s' = sequence s.
Proof. by intros [cs ->]%playSequence_inv. Qed.

Lemma handlePlayerMove_frame move t1 t2 s s' :
  handlePlayerMove move t1 t2 s = Some s' → sequence s' = sequence s.
Proof.
  unfold handlePlayerMove. intros H.
  destruct (sequence_at _ _) as [e|]; cbn in H; [|done].
  repeat match type of H with
         | (if ?b then _ else _) = _ => destruct b
         end;
    try (injection H as <-; reflexivity).
  by apply playSequence_frame in H.
Qed.

Lemma checkPlayerInput_frame now r t1 t2 s s' :
  checkPlayerInput now r t1 t2 s = Some s' → sequence s' = sequence s.
Proof.
  unfold checkPlayerInput. intros H.
  repeat match type of H with
         | (if ?b then _ else _) = _ => destruct b
         end;
    try (injection H as <-; reflexivity);
    by apply handlePlayerMove_frame in H.
Qed.

(** C9.  The array [sequence] is written when a game starts and at no other
    time: an iteration of [loop] that does not start a game leaves it as it
    was, one that starts a game replaces it by the freshly generated
    sequence, and neither the playback, nor the handling of a move or of a
    poll (level advance, win and loss included), nor the reset to the start
    screen, nor the bus recovery changes it. *)
Theorem sequence_written_only_at_game_start t s :
  inv s →
  (∃ s', loop t s = Some s' ∧
     sequence s' =
       if negb (gameStarted s) && btn_start t then generated (raw t) else sequence s) ∧
  (∀ now s', playSequence now s = Some s' → sequence s' = sequence s) ∧
  (∀ move t1 t2 s', handlePlayerMove move t1 t2 s = Some s' → sequence s' = sequence s) ∧
  (∀ now r t1 t2 s', checkPlayerInput now r t1 t2 s = Some s' → sequence s' = sequence s) ∧
  sequence (showGameOverScreen s) = sequence s ∧
  sequence (resetGame s) = sequence s ∧
  sequence (recovery t s) = sequence s.
Proof.
  intros Hinv. split.
  { destruct (loop_inv t s Hinv) as (s' & ? & _ & ?). eauto. }
  split; [intros *; apply playSequence_frame|].
  split; [intros *; apply handlePlayerMove_frame|].
  split; [intros *; apply checkPlayerInput_frame|].
  split; [done|]. split; [done|]. apply recovery_same.
Qed.

(** ** Generation *)

(** C6.  [startGame] leaves a sequence of exactly MAX_LEVEL elements, each
    one of the codes 0 (Up), 1 (Down), 2 (Left), 3 (Right), and the whole of
    it is in place before the playback begins: the game starts by playing
    back from a state that already holds every generated element. *)
Theorem startGame_generates_whole_sequence seed draws now s :
  length (sequence s) = Z.to_nat MAX_LEVEL →
  ∃ s' s0,
    startGame seed draws now s = Some s' ∧
    length (sequence s') = Z.to_nat MAX_LEVEL ∧
    Forall (fun d => 0 ≤ d < 4) (sequence s') ∧
    sequence s' = generated draws ∧
    sequence s0 = generated draws ∧
    startGame seed draws now s = playSequence now s0.
Proof.
  intros Hlen.
  destruct (startGame_spec seed draws now s Hlen) as (s' & cs & Hs' & ->).
  eexists _, (set_sequence (generated draws)
                (emit [RandomSeed seed]
                   (set_currentLevel 1 (set_gameOver false (set_gameStarted true s))))).
  split; [done|]. cbn.
  split; [apply length_generated|]. split; [apply generated_range|].
  split; [done|]. split; [done|].
  unfold startGame. cbn [sequence emit set_currentLevel set_gameOver set_gameStarted].
  by rewrite fill_sequence_generated.
Qed.

(** ** Timeout before gesture *)

(** C5.  A poll that comes later than INPUT_TIMEOUT after the last accepted
    move ends the game as lost before any sample is fetched: the sensor is not
    read, the outcome is the same whatever the board shows, and cursor, level
    and time stamp are as before. *)
Theorem timeout_is_checked_first now r t1 t2 s :
  inv s → gameState s = AwaitingInput →
  INPUT_TIMEOUT < elapsed (millis now) (lastInputTime s) →
  ∃ s', checkPlayerInput now r t1 t2 s = Some s' ∧
    gameState s' = Lost ∧
    currentMove s' = currentMove s ∧ currentLevel s' = currentLevel s ∧
    lastInputTime s' = lastInputTime s ∧
    trace s' = trace (showGameOverScreen s) ∧
    (MpuGetEvent ∉ drop (length (trace s)) (trace s')) ∧
    (∀ r', checkPlayerInput now r' t1 t2 s = Some s').
Proof.
  intros (_ & _ & Hlv & Hplay & _) [Hover Hon]%gameState_AwaitingInput Hlate.
  specialize (Hplay Hon Hover).
  assert (timed_out now s = true) as Hto by (by apply Z.ltb_lt).
  eexists. split; [by apply checkPlayerInput_timed_out|].
  split; [by apply gameState_Lost|]. do 4 (split; [done|]).
  split.
  - cbn. rewrite drop_app_length. intros Hin.
    repeat (apply elem_of_cons in Hin as [Hin|Hin]; [done|]).
    by apply elem_of_nil in Hin.
  - intros r'. by apply checkPlayerInput_timed_out.
Qed.

(** ** Threshold boundary *)

(** C7.  A reading whose pitch is exactly PITCH_THRESHOLD, or exactly
    -PITCH_THRESHOLD, is neither a tilt up nor a tilt down: both tests are
    strict. *)
Theorem pitch_on_threshold_is_no_gesture (a : Accel) :
  pitch a = float_of_int PITCH_THRESHOLD ∨ pitch a = float_of_int (- PITCH_THRESHOLD) →
  isTiltUp a = false ∧ isTiltDown a = false.
Proof.
  unfold isTiltUp, isTiltDown. intros [-> | ->]; split; reflexivity.
Qed.

(** ** Feedback glyph *)

(** C10.  Whatever move is handled, matching or not, the feedback drawn is
    the Up arrow of lines 299-304: a cleared screen, the shaft
    [fillRect(60, 32, 8, 16)] and the head [fillTriangle(64, 16, 54, 32, 74, 32)]
    whose apex lies above its base, then the frame is shown, held for 300 ms
    and blanked.  It is the drawing the playback uses for direction 0 and
    never the drawing of direction 1, 2 or 3. *)
Theorem feedback_is_always_the_up_arrow move t1 t2 s :
  inv s → gameState s = AwaitingInput →
  (∃ s' rest,
     handlePlayerMove move t1 t2 s = Some s' ∧
     trace s' = trace s ++
       [ClearDisplay; FillRect 60 32 8 16 WHITE;
        FillTriangle 64 16 54 32 74 32 WHITE; DisplayShow;
        Delay 300; ClearDisplay; DisplayShow] ++ rest) ∧
  (∀ s0, trace (showArrow 0 s0) = trace s0 ++
       [ClearDisplay; FillRect 60 32 8 16 WHITE;
        FillTriangle 64 16 54 32 74 32 WHITE; DisplayShow]) ∧
  (∀ d s0, 1 ≤ d ≤ 3 → trace (showArrow d s0) ≠ trace s0 ++
       [ClearDisplay; FillRect 60 32 8 16 WHITE;
        FillTriangle 64 16 54 32 74 32 WHITE; DisplayShow]).
Proof.
  intros (Hlen & Hcur & Hlv & Hplay & Hterm) [Hover Hon]%gameState_AwaitingInput.
  specialize (Hplay Hon Hover). split; [|split].
  - destruct (sequence_at_Some s (currentMove s)) as [e He]; [lia|lia|].
    destruct (handlePlayerMove_spec move t1 t2 s e)
      as (s' & rest & Hs' & _ & _ & _ & Htr & _); [done|lia|done|done|].
    exists s', rest. split; [done|]. rewrite Htr. unfold feedback, up_glyph.
    by rewrite <- app_assoc.
  - intros s0. reflexivity.
  - intros d s0 Hd Heq.
    assert (d = 1 ∨ d = 2 ∨ d = 3) as [-> | [-> | ->] ] by lia;
      cbn in Heq; apply app_inv_head in Heq; discriminate Heq.
Qed.

(** ** The player who repeats what was shown *)

Lemma answered_range t : 0 ≤ answered t ≤ 1.
Proof. unfold answered. destruct (classify _); lia. Qed.

Lemma gestures_nonneg ts : 0 ≤ gestures ts.
Proof.
  induction ts as [|t ts IH]; cbn; [done|]. pose proof (answered_range t). lia.
Qed.

Lemma faithful_runb_sound ts p s : faithful_runb ts p s = true → faithful_run ts p s.
Proof.
  revert p s; induction ts as [|t ts IH]; intros p s H; cbn in *; [done|].
  apply andb_prop in H as [Hbtn Hrest]. split.
  - intros Hon. rewrite Hon in Hbtn. cbn in Hbtn. by destruct (btn_reset t).
  - intros e He. rewrite He in Hrest. apply andb_prop in Hrest as [Hpoll Hnext]. split.
    + intros [Hover Hon]%gameState_AwaitingInput.
      rewrite Hover, Hon in Hpoll. cbn in Hpoll.
      apply andb_prop in Hpoll as [Hto Hok]. split.
      * by destruct (timed_out _ _).
      * destruct (classify _); [right|by left].
        by apply bool_decide_eq_true in Hok.
    + intros s' Hs'. rewrite Hs' in Hnext. by apply IH.
Qed.

Lemma faithful_run_take k ts p s : faithful_run ts p s → faithful_run (take k ts) p s.
Proof.
  revert k p s; induction ts as [|t ts IH]; intros [|k] p s H; cbn; try done.
  destruct H as [Hbtn Hrest]. split; [done|]. intros e He.
  destruct (Hrest e He) as [Hpoll Hnext]. split; [done|].
  intros s' Hs'. by apply IH, Hnext.
Qed.

Lemma shown_in_step p s :
  in_step p s → gameOver s = false → shown s p = sequence_at s (currentMove s).
Proof.
  intros ((_ & Hcur & _) & _ & Hrun & _) Hover. destruct (Hrun Hover) as [Hlt ->].
  unfold shown.
  destruct (Z.leb_spec 0 (currentMove s)), (Z.ltb_spec (currentMove s) (currentLevel s));
    (done || lia).
Qed.

Lemma in_step_same p s s' :
  currentLevel s' = currentLevel s → gameStarted s' = gameStarted s →
  gameOver s' = gameOver s → currentMove s' = currentMove s →
  length (sequence s') = length (sequence s) →
  in_step p s → in_step p s' ∧ remaining2 s' = remaining2 s.
Proof.
  unfold in_step, inv, remaining2. by intros -> -> -> -> ->.
Qed.

Lemma remaining2_in_step p s :
  in_step p s →
  (gameOver s = true → remaining2 s = 0) ∧ (gameOver s = false → 2 ≤ remaining2 s).
Proof.
  intros ((_ & Hcur & Hlv & Hplay & _) & Hon & Hrun & Hwon).
  unfold remaining2, MAX_LEVEL in *. split; intros Hover.
  - destruct (Hwon Hover) as [-> ->]. lia.
  - specialize (Hplay Hon Hover). destruct (Hrun Hover) as [Hlt _].
    assert ((currentLevel s - 1) * (currentLevel s + 2) ≤ 108) by nia.
    lia.
Qed.

Lemma in_step_not_lost p s : in_step p s → gameState s ≠ Lost.
Proof.
  intros (_ & _ & _ & Hwon) [Hover Hlv]%gameState_Lost.
  destruct (Hwon Hover) as [? _]. lia.
Qed.

Ltac in_step_goal :=
  split;
  [ split; [assumption|]; split; [assumption|];
    split; intros; first [congruence | split; first [lia | congruence]]
  | split; [intros; first [congruence | right; lia] | lia] ].

(** One poll of a player in step with the engine: the engine accepts what
    was shown, its cursor keeps counting the gestures of the level, and every
    gesture is one move less to make. *)
Lemma game_phase_in_step t e p :
  in_step p e →
  (gameState e = AwaitingInput →
     timed_out (t_check t) e = false ∧
     (classify (acc t) = None ∨ classify (acc t) = shown e p)) →
  ∃ s3, game_phase t e = Some s3 ∧
    in_step (if currentLevel s3 =? currentLevel e then p + answered t else 0) s3 ∧
    (gameOver s3 = true → gameOver e = true ∨ currentLevel e = MAX_LEVEL) ∧
    remaining2 s3 = Z.max 0 (remaining2 e - 2 * answered t).
Proof.
  intros Hin Hfaithful.
  destruct (remaining2_in_step p e Hin) as [Hrem0 Hrem2].
  pose proof (answered_range t) as Hans.
  pose proof Hin as (Hinv & Hon & Hrun & Hwon).
  destruct (game_phase_inv t e Hinv) as (s3 & Hs3 & Hinv3 & _ & Hon3).
  exists s3. split; [done|].
  unfold game_phase in Hs3. rewrite Hon in Hs3.
  destruct (gameOver e) eqn:Hover; cbn in Hs3.
  - injection Hs3 as <-. split; [|split; [by left|]].
    + unfold in_step. do 2 (split; [done|]).
      split; [intros; congruence|]. intros _. by apply Hwon.
    + rewrite Hrem0 by done. lia.
  - specialize (Hrem2 eq_refl). destruct (Hrun eq_refl) as [Hlt Hp].
    destruct Hfaithful as [Hto Hok]; [by apply gameState_AwaitingInput|].
    rewrite (shown_in_step p e Hin Hover) in Hok.
    destruct Hinv as (Hlen & Hcur & Hlv & Hplay & Hterm). specialize (Hplay Hon Hover).
    destruct (checkPlayerInput_spec (t_check t) (acc t) (t_move t) (t_next t) e)
      as (s' & Hs' & _ & _ & _ & _ & Hcase); [done|lia|done|].
    rewrite Hs3 in Hs'. injection Hs' as <-. rewrite Hon in Hon3.
    unfold answered, in_step, remaining2, MAX_LEVEL in *.
    destruct Hcase as [(_ & _ & _ & [Hlate|(m & Hm & Hne)])|[(_ & Hnone & Ho & Hl & Hc & _)|
      (_ & [m Hm] & _ & Hcase)]].
    + congruence.
    + destruct Hok; congruence.
    + rewrite Hnone, Hl, Hc, Ho, Z.eqb_refl. in_step_goal.
    + rewrite Hm.
      destruct Hcase as [(? & Ho & Hl & Hc)|[(? & ? & Ho & Hl & Hc)|(? & ? & Ho & Hl & Hc)]];
        rewrite Hl, Hc, Ho.
      * rewrite Z.eqb_refl. in_step_goal.
      * destruct (Z.eqb_spec (currentLevel e + 1) (currentLevel e)); [lia|].
        in_step_goal.
      * in_step_goal.
Qed.

(** An iteration of a game that is on. *)
Lemma faithful_step t ts p s :
  in_step p s → faithful_run (t :: ts) p s →
  ∃ s' p', loop t s = Some s' ∧ in_step p' s' ∧ faithful_run ts p' s' ∧
    remaining2 s' = Z.max 0 (remaining2 s - 2 * answered t).
Proof.
  intros Hin [Hbtn Hrest].
  pose proof Hin as (Hinv & Hstarted & _).
  destruct (recovery_same t s) as (Hseq & Hlv & Hon & Hover & _ & Hmove).
  assert (entering t s = Some (recovery t s)) as Hent.
  { unfold entering, start_phase. by rewrite Hon, Hstarted. }
  destruct (Hrest _ Hent) as [Hpoll Hnext]. rewrite Hstarted in Hpoll, Hnext.
  destruct (in_step_same p s (recovery t s)) as [Hin1 Hrem1];
    [done|done|done|done|by rewrite Hseq|done|].
  destruct (game_phase_in_step t _ p Hin1 Hpoll) as (s3 & Hs3 & Hin3 & _ & Hrem3).
  assert (loop t s = Some (emit [Delay 50] s3)) as Hloop.
  { unfold loop. unfold entering in Hent. rewrite Hent. cbn. rewrite Hs3. cbn.
    unfold reset_phase. by rewrite (Hbtn Hstarted), andb_false_r. }
  destruct (in_step_same _ s3 (emit [Delay 50] s3) eq_refl eq_refl eq_refl eq_refl
              eq_refl Hin3) as [Hin' Hrem'].
  eexists _, _. split; [exact Hloop|]. split; [exact Hin'|].
  split; [exact (Hnext _ Hloop)|]. by rewrite Hrem', Hrem3, Hrem1.
Qed.

(** The iteration that starts a game with the cursor at 0. *)
Lemma faithful_start t ts s :
  inv s → gameState s = Idle → currentMove s = 0 → btn_start t = true →
  faithful_run (t :: ts) 0 s →
  ∃ s' p', loop t s = Some s' ∧ in_step p' s' ∧ faithful_run ts p' s' ∧
    remaining2 s' = Z.max 0 (2 * moves_to_win - 2 * answered t).
Proof.
  intros Hinv [Hover Hoff]%gameState_Idle Hzero Hbtn [_ Hrest].
  pose proof (recovery_inv t s Hinv) as Hinv1.
  destruct (recovery_same t s) as (_ & _ & Hon & _ & _ & Hmove).
  destruct (start_phase_inv t _ Hinv1) as (e & He & Hinve & Hcur & Hgo & _).
  destruct Hgo as (_ & Hlv & Hone & Hovere); [by rewrite Hon, Hoff, Hbtn|].
  destruct (Hrest e He) as [Hpoll Hnext]. rewrite Hoff in Hpoll, Hnext.
  assert (in_step 0 e) as Hine.
  { unfold in_step. do 2 (split; [done|]).
    split; intros; [split; lia|congruence]. }
  assert (remaining2 e = 2 * moves_to_win) as Hreme.
  { unfold remaining2. rewrite Hlv, Hcur, Hmove, Hzero. reflexivity. }
  destruct (game_phase_in_step t e 0 Hine Hpoll) as (s3 & Hs3 & Hin3 & Hend & Hrem3).
  assert (gameOver s3 = false) as Hover3.
  { destruct (gameOver s3); [|done].
    destruct Hend as [?|?]; [done|congruence|]. unfold MAX_LEVEL in *. lia. }
  assert (loop t s = Some (emit [Delay 50] s3)) as Hloop.
  { unfold loop. rewrite He. cbn. rewrite Hs3. cbn.
    unfold reset_phase. by rewrite Hover3. }
  destruct (in_step_same _ s3 (emit [Delay 50] s3) eq_refl eq_refl eq_refl eq_refl
              eq_refl Hin3) as [Hin' Hrem'].
  eexists _, _. split; [exact Hloop|]. split; [exact Hin'|].
  split; [exact (Hnext _ Hloop)|]. by rewrite Hrem', Hrem3, Hreme.
Qed.

Lemma faithful_run_in_step ts p s :
  in_step p s → faithful_run ts p s →
  ∃ s' p', run ts s = Some s' ∧ in_step p' s' ∧
    remaining2 s' = Z.max 0 (remaining2 s - 2 * gestures ts).
Proof.
  revert p s; induction ts as [|t ts IH]; intros p s Hin Hrun.
  - exists s, p. split; [done|]. split; [done|].
    destruct (remaining2_in_step p s Hin) as [H0 H2]. cbn.
    destruct (gameOver s); [rewrite H0 by done|specialize (H2 eq_refl)]; lia.
  - destruct (faithful_step t ts p s Hin Hrun) as (s1 & p1 & Hs1 & Hin1 & Hrun1 & Hrem1).
    destruct (IH p1 s1 Hin1 Hrun1) as (s' & p' & Hs' & Hin' & Hrem').
    exists s', p'. cbn [run]. rewrite Hs1. cbn. split; [done|]. split; [done|].
    pose proof (gestures_nonneg ts). pose proof (answered_range t).
    rewrite Hrem', Hrem1. cbn [gestures]. lia.
Qed.

Lemma faithful_game_outcome t0 ts s0 :
  inv s0 → gameState s0 = Idle → currentMove s0 = 0 → btn_start t0 = true →
  faithful_run (t0 :: ts) 0 s0 →
  ∃ s' p', run (t0 :: ts) s0 = Some s' ∧ in_step p' s' ∧
    remaining2 s' = Z.max 0 (2 * moves_to_win - 2 * gestures (t0 :: ts)).
Proof.
  intros Hinv Hidle Hzero Hbtn Hrun.
  destruct (faithful_start t0 ts s0 Hinv Hidle Hzero Hbtn Hrun)
    as (s1 & p1 & Hs1 & Hin1 & Hrun1 & Hrem1).
  destruct (faithful_run_in_step ts p1 s1 Hin1 Hrun1) as (s' & p' & Hs' & Hin' & Hrem').
  exists s', p'. cbn [run]. rewrite Hs1. cbn. split; [done|]. split; [done|].
  pose proof (gestures_nonneg ts). pose proof (answered_range t0).
  rewrite Hrem', Hrem1. cbn [gestures]. lia.
Qed.

(** Whatever sequence is generated, in a game that starts with the cursor at
    0, as the first game after power on does, the player who repeats in time
    what every level showed is never beaten, at the end or at any point on
    the way; the game is won as soon as 1 + 2 + ... + MAX_LEVEL gestures are
    made, one for every element of every level, and awaits input until then. *)
Lemma faithful_game_is_won_from_cursor_zero t0 ts s0 :
  inv s0 → gameState s0 = Idle → currentMove s0 = 0 → btn_start t0 = true →
  faithful_run (t0 :: ts) 0 s0 →
  ∃ s', run (t0 :: ts) s0 = Some s' ∧
    gameState s' ≠ Lost ∧
    gameState s' =
      (if moves_to_win <=? gestures (t0 :: ts) then Won else AwaitingInput) ∧
    (∀ k, ∃ sk, run (take k (t0 :: ts)) s0 = Some sk ∧ gameState sk ≠ Lost).
Proof.
  intros Hinv Hidle Hzero Hbtn Hrun.
  destruct (faithful_game_outcome t0 ts s0 Hinv Hidle Hzero Hbtn Hrun)
    as (s' & p' & Hs' & Hin' & Hrem').
  exists s'. split; [done|]. split; [by apply (in_step_not_lost p')|]. split.
  - destruct (remaining2_in_step p' s' Hin') as [H0 H2].
    assert (moves_to_win = 55) as Hm by reflexivity. rewrite Hm in *.
    destruct Hin' as (Hinv' & Hon' & _ & Hwon').
    destruct (Z.leb_spec 55 (gestures (t0 :: ts))) as [Hge|Hlt];
      destruct (gameOver s') eqn:Hover.
    + apply gameState_Won. split; [done|]. destruct Hwon' as [-> _]; [done|].
      unfold MAX_LEVEL. lia.
    + exfalso. specialize (H2 eq_refl). lia.
    + exfalso. specialize (H0 eq_refl). lia.
    + by apply gameState_AwaitingInput.
  - intros [|k].
    + exists s0. split; [done|]. by rewrite Hidle.
    + change (take (S k) (t0 :: ts)) with (t0 :: take k ts).
      destruct (faithful_game_outcome t0 (take k ts) s0 Hinv Hidle Hzero Hbtn)
        as (sk & pk & Hsk & Hink & _).
      { by apply (faithful_run_take (S k) (t0 :: ts)). }
      exists sk. split; [done|]. by apply (in_step_not_lost pk).
Qed.

(** ** Bring-up *)

Lemma first_success_Some n i ok j :
  first_success n i ok = Some j →
  (i ≤ j < i + n)%nat ∧ ok j = true ∧ ∀ k, (i ≤ k < j)%nat → ok k = false.
Proof.
  revert i; induction n as [|n IH]; intros i H; cbn in H; [done|].
  destruct (ok i) eqn:Hi.
  - injection H as <-. repeat split; (done || lia).
  - apply IH in H as (Hj & Hok & Hbefore). repeat split; [lia|lia|done|].
    intros k Hk. destruct (decide (k = i)) as [->|]; [done|]. apply Hbefore. lia.
Qed.

Lemma first_success_None n i ok :
  first_success n i ok = None → ∀ k, (i ≤ k < i + n)%nat → ok k = false.
Proof.
  revert i; induction n as [|n IH]; intros i H k Hk; cbn in H; [lia|].
  destruct (ok i) eqn:Hi; [done|].
  destruct (decide (k = i)) as [->|]; [done|]. apply (IH (S i)); [done|lia].
Qed.

Lemma i2c_attempts_spec n i ack s :
  i2c_attempts n i ack s =
    match first_success n i ack with
    | Some j => (true, emit (failed_attempts i2c_probe (j - i) ++ i2c_probe) s)
    | None => (false, emit (failed_attempts i2c_probe n) s)
    end.
Proof.
  revert i s; induction n as [|n IH]; intros i s; cbn [i2c_attempts first_success].
  - by rewrite emit_nil.
  - destruct (ack i) eqn:Hi.
    + by rewrite Nat.sub_diag.
    + rewrite IH.
      destruct (first_success n (S i) ack) as [j|] eqn:Hj; rewrite !emit_emit.
      * apply first_success_Some in Hj as [Hj _].
        replace (j - i)%nat with (S (j - S i)) by lia.
        cbn [failed_attempts]. by rewrite <- !app_assoc.
      * reflexivity.
Qed.

Lemma mpu_attempts_spec n i ok s :
  mpu_attempts n i ok s =
    match first_success n i ok with
    | Some j => (true, emit (failed_attempts mpu_probe (j - i) ++ mpu_probe) s)
    | None => (false, emit (failed_attempts mpu_probe n) s)
    end.
Proof.
  revert i s; induction n as [|n IH]; intros i s; cbn [mpu_attempts first_success].
  - by rewrite emit_nil.
  - destruct (ok i) eqn:Hi.
    + by rewrite Nat.sub_diag.
    + rewrite IH.
      destruct (first_success n (S i) ok) as [j|] eqn:Hj; rewrite !emit_emit.
      * apply first_success_Some in Hj as [Hj _].
        replace (j - i)%nat with (S (j - S i)) by lia.
        cbn [failed_attempts]. by rewrite <- !app_assoc.
      * reflexivity.
Qed.

Lemma oled_attempts_spec n i ok s :
  oled_attempts n i ok s =
    match first_success n i ok with
    | Some j => (true, emit (failed_attempts oled_probe (j - i) ++ oled_probe) s)
    | None => (false, emit (failed_attempts oled_probe n) s)
    end.
Proof.
  revert i s; induction n as [|n IH]; intros i s; cbn [oled_attempts first_success].
  - by rewrite emit_nil.
  - destruct (ok i) eqn:Hi.
    + by rewrite Nat.sub_diag.
    + rewrite IH.
      destruct (first_success n (S i) ok) as [j|] eqn:Hj; rewrite !emit_emit.
      * apply first_success_Some in Hj as [Hj _].
        replace (j - i)%nat with (S (j - S i)) by lia.
        cbn [failed_attempts]. by rewrite <- !app_assoc.
      * reflexivity.
Qed.

Lemma initializeI2C_policy ack s : initializeI2C ack s = retry_policy i2c_probe ack s.
Proof.
  unfold initializeI2C, retry_policy. rewrite i2c_attempts_spec.
  destruct (first_success 5 0 ack); [|done]. by rewrite Nat.sub_0_r.
Qed.

Lemma initializeMPU_policy ok s : initializeMPU ok s = retry_policy mpu_probe ok s.
Proof.
  unfold initializeMPU, retry_policy. rewrite mpu_attempts_spec.
  destruct (first_success 5 0 ok); [|done]. by rewrite Nat.sub_0_r.
Qed.

Lemma initializeOLED_policy ok s : initializeOLED ok s = retry_policy oled_probe ok s.
Proof.
  unfold initializeOLED, retry_policy. rewrite oled_attempts_spec.
  destruct (first_success 5 0 ok); [|done]. by rewrite Nat.sub_0_r.
Qed.

(** A halted board stays halted: it only ever pauses. *)
Lemma system_run_halted ts s :
  ∃ s', system_run ts (Halted s) = Some (Halted s') ∧
    gameStarted s' = gameStarted s ∧
    trace s' = trace s ++ replicate (length ts) (Delay 100).
Proof.
  revert s; induction ts as [|t ts IH]; intros s; cbn.
  - exists s. by rewrite app_nil_r.
  - destruct (IH (emit [Delay 100] s)) as (s' & -> & Hon & Htr).
    exists s'. split; [done|]. split; [done|].
    rewrite Htr. cbn. by rewrite <- app_assoc.
Qed.

Lemma setup_halts_without_bus b :
  first_success 5 0 (i2c_ack b) = None →
  ∃ s, setup b = Halted s ∧ gameStarted s = false ∧
    (∀ c, c ∈ trace s → c ≠ MpuBegin MPU_ADDRESS ∧ c ≠ OledBegin OLED_ADDRESS).
Proof.
  intros Hbus. unfold setup. rewrite initializeI2C_policy. unfold retry_policy.
  rewrite Hbus. cbn. eexists. split; [done|]. split; [done|].
  intros c Hc. cbn in Hc.
  repeat (apply elem_of_cons in Hc as [->|Hc]; [done|]).
  by apply elem_of_nil in Hc.
Qed.

Lemma setup_halts_without_sensor b :
  is_Some (first_success 5 0 (i2c_ack b)) →
  first_success 5 0 (mpu_ok b) = None →
  ∃ s, setup b = Halted s ∧ gameStarted s = false.
Proof.
  intros [j Hbus] Hmpu. unfold setup.
  rewrite initializeI2C_policy. unfold retry_policy at 1. rewrite Hbus.
  cbn -[initializeMPU initializeOLED].
  rewrite initializeMPU_policy. unfold retry_policy at 1. rewrite Hmpu. cbn.
  eexists. by split.
Qed.

Lemma setup_runs_with_bus_and_sensor b :
  is_Some (first_success 5 0 (i2c_ack b)) →
  is_Some (first_success 5 0 (mpu_ok b)) →
  ∃ s, setup b = Running s ∧ gameState s = Idle ∧ inv s ∧
    (first_success 5 0 (oled_ok b) = None →
     SerialPrintln "OLED initialization failed - continuing without display" ∈ trace s).
Proof.
  intros [j Hbus] [k Hmpu]. unfold setup.
  rewrite initializeI2C_policy. unfold retry_policy at 1. rewrite Hbus.
  cbn -[initializeMPU initializeOLED first_success].
  rewrite initializeMPU_policy. unfold retry_policy at 1. rewrite Hmpu.
  cbn -[initializeOLED first_success].
  rewrite initializeOLED_policy. unfold retry_policy at 1.
  destruct (first_success 5 0 (oled_ok b)) as [o|]; cbn [negb].
  - eexists. split; [done|]. split; [done|]. split; [apply power_on_inv|done].
  - eexists. split; [done|]. split; [done|]. split; [apply power_on_inv|].
    intros _. cbn [trace showStartScreen emit]. set_solver.
Qed.

(** C8.  Bus, sensor and display are each brought up by the same policy: up
    to five attempts, a 100 ms pause after every failed one, success at the
    first attempt that succeeds.  When the bus, or else the sensor, has failed
    five times the board halts and no game is ever started; when both came up
    the board reaches the idle state of the game whether or not the display
    did. *)
Theorem bring_up_policy (b : Boot) :
  (∀ s, initializeI2C (i2c_ack b) s = retry_policy i2c_probe (i2c_ack b) s) ∧
  (∀ s, initializeMPU (mpu_ok b) s = retry_policy mpu_probe (mpu_ok b) s) ∧
  (∀ s, initializeOLED (oled_ok b) s = retry_policy oled_probe (oled_ok b) s) ∧
  (∀ ok j, first_success 5 0 ok = Some j → (j < 5)%nat) ∧
  (first_success 5 0 (i2c_ack b) = None ∨ first_success 5 0 (mpu_ok b) = None →
   ∀ ts, ∃ s', system_run ts (setup b) = Some (Halted s') ∧ gameStarted s' = false) ∧
  (is_Some (first_success 5 0 (i2c_ack b)) →
   is_Some (first_success 5 0 (mpu_ok b)) →
   ∃ s, setup b = Running s ∧ gameState s = Idle ∧ inv s ∧
     (first_success 5 0 (oled_ok b) = None →
      SerialPrintln "OLED initialization failed - continuing without display" ∈ trace s)).
Proof.
  split; [intros; apply initializeI2C_policy|].
  split; [intros; apply initializeMPU_policy|].
  split; [intros; apply initializeOLED_policy|].
  split; [intros ok j [? _]%first_success_Some; lia|].
  split; [|apply setup_runs_with_bus_and_sensor].
  intros Hfail ts.
  assert (∃ s, setup b = Halted s ∧ gameStarted s = false) as (s & -> & Hoff).
  { destruct (first_success 5 0 (i2c_ack b)) as [j|] eqn:Hbus.
    - destruct Hfail as [?|Hmpu]; [done|].
      apply setup_halts_without_sensor; [by eexists|done].
    - destruct (setup_halts_without_bus b Hbus) as (s & ? & ? & _). eauto. }
  destruct (system_run_halted ts s) as (s' & -> & Hon & _).
  exists s'. split; [done|]. congruence.
Qed.

End Properties.

(** ** The cursor across a restart *)

(** What [resetGame] does and does not clear. *)
Lemma resetGame_spec s :
  gameState (resetGame s) = Idle ∧
  currentLevel (resetGame s) = currentLevel s ∧
  currentMove (resetGame s) = currentMove s.
Proof. done. Qed.

(** From a finished game, an iteration with the button pressed ends at the
    start screen. *)
Lemma button_leaves_game_over `{fpu : FloatUnit} t s :
  gameOver s = true → gameStarted s = true → btn_reset t = true →
  loop t s = Some (emit [Delay 50] (resetGame (emit [Delay 200] (recovery t s)))).
Proof.
  intros Hover Hon Hbtn. unfold loop, start_phase, game_phase, reset_phase.
  destruct (recovery_same t s) as (_ & Hl & Hon1 & Hover1 & _ & Hc).
  rewrite Hon1, Hon. cbn. rewrite Hover1, Hover. cbn. rewrite Hbtn.
  rewrite andb_false_r. cbn. by rewrite Hover1, Hover.
Qed.

(** Within a game every poll keeps the cursor strictly below the level. *)
Lemma cursor_below_level_preserved `{fpu : FloatUnit} now r t1 t2 s :
  inv s → gameState s = AwaitingInput → currentMove s < currentLevel s →
  ∃ s', checkPlayerInput now r t1 t2 s = Some s' ∧
    0 ≤ currentMove s' < currentLevel s'.
Proof.
  intros (Hlen & Hcur & Hlv & Hplay & _) [Hover Hon]%gameState_AwaitingInput Hlt.
  specialize (Hplay Hon Hover).
  destruct (checkPlayerInput_spec now r t1 t2 s)
    as (s' & Hs' & _ & _ & _ & _ & Hcase); [done|lia|done|].
  exists s'. split; [done|]. unfold MAX_LEVEL in *.
  destruct Hcase as [(_ & -> & -> & _)|[(_ & _ & _ & -> & -> & _)|
    (_ & _ & _ & [(? & _ & -> & ->)|[(? & ? & _ & -> & ->)|(? & ? & _ & -> & ->)]])]];
    lia.
Qed.

(** C3 (as the sketch has it).  From a finished game, won or lost, an
    iteration with the button pressed pauses 200 ms, shows the start screen
    and leaves the engine idle; the level counter keeps its value until the
    next press of the button starts a game, which begins at level 1. *)
Theorem button_returns_to_idle `{fpu : FloatUnit} t t' s :
  inv s → gameState s = Won ∨ gameState s = Lost →
  btn_reset t = true → btn_start t' = true →
  ∃ idle game,
    loop t s = Some idle ∧ gameState idle = Idle ∧
    currentLevel idle = currentLevel s ∧
    (∃ pre, trace idle = pre ++ [Delay 200] ++ start_screen ++ [Delay 50]) ∧
    entering t' idle = Some game ∧
    gameState game = AwaitingInput ∧ currentLevel game = 1.
Proof.
  intros Hinv Hterm Hreset Hstart.
  assert (gameOver s = true) as Hover.
  { destruct Hterm as [[? _]%gameState_Won|[? _]%gameState_Lost]; done. }
  assert (gameStarted s = true) as Hon by (by apply Hinv).
  destruct (loop_inv t s Hinv) as (idle & Hidle & Hinv' & _).
  pose proof (button_leaves_game_over t s Hover Hon Hreset) as Hloop.
  rewrite Hidle in Hloop. injection Hloop as ->.
  destruct (recovery_same t s) as (_ & Hlv & _).
  pose proof (recovery_inv t' _ Hinv') as Hinv1.
  destruct (start_phase_inv t' _ Hinv1) as (game & Hgame & _ & _ & Hgo & _).
  destruct Hgo as (_ & Hone & Hon' & Hover').
  { destruct (recovery_same t'
       (emit [Delay 50] (resetGame (emit [Delay 200] (recovery t s)))))
      as (_ & _ & -> & _). by rewrite Hstart. }
  eexists _, game. split; [done|]. split; [done|]. split; [done|].
  split; [|split; [done|]; split; [by apply gameState_AwaitingInput|done]].
  exists (trace (recovery t s)). trace_eq.
Qed.

(** C3 (as stated) fails on the bench session that loses level 3 with the
    cursor at 2: the button brings the engine back to Idle, but level 3 and
    cursor 2 are still there, and the game started next begins at level 1
    with the cursor at 2, not 0. *)
Theorem restart_keeps_the_cursor :
  ∃ lost idle next,
    @run bench_unit losing_session power_on = Some lost ∧
    gameState lost = Lost ∧ currentLevel lost = 3 ∧ currentMove lost = 2 ∧
    @run bench_unit [button_tick 800 bench_draws] lost = Some idle ∧
    gameState idle = Idle ∧ currentLevel idle = 3 ∧ currentMove idle = 2 ∧
    @run bench_unit [button_tick 900 bench_draws] idle = Some next ∧
    gameState next = AwaitingInput ∧ currentLevel next = 1 ∧ currentMove next = 2.
Proof.
  eexists _, _, _.
  split; [vm_compute; reflexivity|]. do 3 (split; [reflexivity|]).
  split; [vm_compute; reflexivity|]. do 3 (split; [reflexivity|]).
  split; [vm_compute; reflexivity|]. by repeat split.
Qed.

(** C4.  The bench session that loses level 3 with the cursor at 2, leaves
    the game-over screen and starts the next game reaches a state in which
    input is awaited at level 1 with the cursor at 2: the cursor exceeds the
    level. *)
Theorem cursor_exceeds_level_after_restart :
  ∃ s, @run bench_unit restart_session power_on = Some s ∧
    gameState s = AwaitingInput ∧ currentLevel s = 1 ∧ currentMove s = 2 ∧
    ¬ (currentMove s ≤ currentLevel s).
Proof.
  eexists. split; [vm_compute; reflexivity|].
  do 3 (split; [reflexivity|]). cbn. lia.
Qed.

(** C2.  A player who supplies the matching gesture for every element of
    every level, each in time, does not always win.  The bench session that
    loses level 3 with the cursor at 2 and leaves the game-over screen ends
    idle with the cursor still at 2.  The next press of the button starts a
    game whose playback of level 1 shows one arrow, Up.  The player repeats,
    in time, what each playback shows; the first gesture, Up, is classified
    as Up and comes 100 ms after the time stamp, but the engine compares it
    with the element under its cursor, [sequence[2]] = Left, and the game is
    lost at level 1.  The same play of the same sequence wins the game
    started at power on, where the cursor is 0. *)
Theorem faithful_player_loses_after_restart :
  ∃ idle game lost won,
    @run bench_unit lost_and_reset power_on = Some idle ∧
    inv idle ∧ gameState idle = Idle ∧ currentMove idle = 2 ∧
    @run bench_unit [button_tick 900 bench_draws] idle = Some game ∧
    trace game = trace idle ++ [Delay 200; RandomSeed 0] ++
                 playback 1 (sequence game) ++ replicate 4 MpuGetEvent ++ [Delay 50] ∧
    take 1 (sequence game) = [0] ∧
    gameState game = AwaitingInput ∧ currentLevel game = 1 ∧
    @classify bench_unit (acc (tilt_tick 1000 tilted_up)) = Some 0 ∧
    timed_out 1000 game = false ∧
    sequence_at game (currentMove game) = Some 2 ∧
    @faithful_run bench_unit faithful_game 0 idle ∧
    @run bench_unit faithful_game idle = Some lost ∧
    gameState lost = Lost ∧ currentLevel lost = 1 ∧
    @faithful_run bench_unit faithful_game 0 power_on ∧
    @run bench_unit faithful_game power_on = Some won ∧
    gameState won = Won.
Proof.
  eexists _, _, _, _.
  split; [vm_compute; reflexivity|].
  split; [unfold inv; cbn; repeat split; (lia || done)|].
  do 2 (split; [reflexivity|]).
  split; [vm_compute; reflexivity|].
  do 7 (split; [vm_compute; reflexivity|]).
  split; [apply faithful_runb_sound; vm_compute; reflexivity|].
  split; [vm_compute; reflexivity|].
  do 2 (split; [reflexivity|]).
  split; [apply faithful_runb_sound; vm_compute; reflexivity|].
  split; [vm_compute; reflexivity|].
  reflexivity.
Qed.

(** ** The theorems at work on the bench *)

Ltac inv_by_eval := unfold inv; cbn; repeat split; (lia || done).


(** The bench game, started from power on and played by repeating what was
    shown. *)
Lemma faithful_game_is_won_from_cursor_zero_witness :
  inv power_on ∧ gameState power_on = Idle ∧ currentMove power_on = 0 ∧
  btn_start (button_tick 900 bench_draws) = true ∧
  @faithful_run bench_unit faithful_game 0 power_on ∧
  ∃ s', @run bench_unit faithful_game power_on = Some s' ∧ gameState s' = Won.
Proof.
  assert (inv power_on) as Hinv by inv_by_eval.
  assert (@faithful_run bench_unit faithful_game 0 power_on)
    as Hrun by (apply faithful_runb_sound; vm_compute; reflexivity).
  split; [exact Hinv|]. do 3 (split; [reflexivity|]).
  split; [exact Hrun|].
  destruct (@faithful_game_is_won_from_cursor_zero bench_unit
              (button_tick 900 bench_draws) (flawless_ticks 1000 bench_sequence)
              power_on Hinv eq_refl eq_refl eq_refl Hrun)
    as (s' & Hs' & _ & Hwon & _).
  exists s'. split; [exact Hs'|]. rewrite Hwon. vm_compute. reflexivity.
Defined.

(** C3 at work: the button after the lost bench game, and the next start. *)
Lemma button_returns_to_idle_witness :
  inv bench_lost ∧ gameState bench_lost = Lost ∧
  ∃ idle game,
    @loop bench_unit (button_tick 800 bench_draws) bench_lost = Some idle ∧
    gameState idle = Idle ∧ currentLevel idle = 3 ∧
    entering (button_tick 900 bench_draws) idle = Some game ∧
    gameState game = AwaitingInput ∧ currentLevel game = 1.
Proof.
  assert (inv bench_lost) as Hinv by inv_by_eval.
  split; [exact Hinv|]. split; [reflexivity|].
  destruct (@button_returns_to_idle bench_unit (button_tick 800 bench_draws)
              (button_tick 900 bench_draws) bench_lost Hinv (or_intror eq_refl)
              eq_refl eq_refl)
    as (idle & game & H1 & H2 & H3 & _ & H5 & H6 & H7).
  exists idle, game. repeat split; assumption.
Defined.

(** C5 at work: 4000 ms after the last move the expected gesture, Down, comes
    too late. *)
Lemma timeout_is_checked_first_witness :
  inv bench_awaiting ∧ gameState bench_awaiting = AwaitingInput ∧
  INPUT_TIMEOUT < elapsed (millis 5000) (lastInputTime bench_awaiting) ∧
  ∃ s', @checkPlayerInput bench_unit 5000 (hold tilted_down) 5000 5000 bench_awaiting
          = Some s' ∧
        gameState s' = Lost ∧ currentMove s' = currentMove bench_awaiting.
Proof.
  assert (inv bench_awaiting) as Hinv by inv_by_eval.
  assert (INPUT_TIMEOUT < elapsed (millis 5000) (lastInputTime bench_awaiting))
    as Hlate by (vm_compute; reflexivity).
  split; [exact Hinv|]. split; [reflexivity|]. split; [exact Hlate|].
  destruct (@timeout_is_checked_first bench_unit 5000 (hold tilted_down) 5000 5000
              bench_awaiting Hinv eq_refl Hlate) as (s' & H1 & H2 & H3 & _).
  exists s'. repeat split; assumption.
Defined.

(** C6 at work: the first game after power on. *)
Lemma startGame_generates_whole_sequence_witness :
  length (sequence power_on) = Z.to_nat MAX_LEVEL ∧
  ∃ s', startGame 0 bench_draws 100 power_on = Some s' ∧
        sequence s' = bench_sequence.
Proof.
  split; [reflexivity|].
  destruct (startGame_generates_whole_sequence 0 bench_draws 100 power_on
              eq_refl) as (s' & _ & H1 & _ & _ & H4 & _).
  exists s'. split; [exact H1|]. rewrite H4. reflexivity.
Defined.

(** C7 at work: a pitch of exactly 25 degrees. *)
Lemma pitch_on_threshold_is_no_gesture_witness :
  @pitch (dial_unit 25) flat = float_of_int PITCH_THRESHOLD ∧
  @isTiltUp (dial_unit 25) flat = false ∧ @isTiltDown (dial_unit 25) flat = false.
Proof.
  split; [reflexivity|].
  apply (@pitch_on_threshold_is_no_gesture (dial_unit 25) flat). left. reflexivity.
Defined.

(** C8 at work: a board whose bus never answers just pauses. *)
Lemma bring_up_policy_witness :
  ∃ s', @system_run bench_unit [quiet_tick 0; button_tick 100 bench_draws]
          (setup dead_bus) = Some (Halted s') ∧
        gameStarted s' = false.
Proof.
  apply (proj1 (proj2 (proj2 (proj2 (proj2 (@bring_up_policy bench_unit dead_bus)))))).
  left. reflexivity.
Defined.

(** C9 at work: a correct move in the bench game leaves the sequence alone. *)
Lemma sequence_written_only_at_game_start_witness :
  inv bench_awaiting ∧
  ∃ s', @loop bench_unit (tilt_tick 1200 tilted_down) bench_awaiting = Some s' ∧
        sequence s' = bench_sequence.
Proof.
  assert (inv bench_awaiting) as Hinv by inv_by_eval.
  split; [exact Hinv|].
  destruct (@sequence_written_only_at_game_start bench_unit
              (tilt_tick 1200 tilted_down) bench_awaiting Hinv)
    as ((s' & H1 & H2) & _).
  exists s'. split; [exact H1|]. exact H2.
Defined.

(** C10 at work: a tilt to the right is answered with the Up arrow. *)
Lemma feedback_is_always_the_up_arrow_witness :
  inv bench_awaiting ∧ gameState bench_awaiting = AwaitingInput ∧
  ∃ s' rest,
    handlePlayerMove 3 1200 1200 bench_awaiting = Some s' ∧
    trace s' =
      [ClearDisplay; FillRect 60 32 8 16 WHITE;
       FillTriangle 64 16 54 32 74 32 WHITE; DisplayShow;
       Delay 300; ClearDisplay; DisplayShow] ++ rest.
Proof.
  assert (inv bench_awaiting) as Hinv by inv_by_eval.
  split; [exact Hinv|]. split; [reflexivity|].
  destruct (feedback_is_always_the_up_arrow 3 1200 1200 bench_awaiting
              Hinv eq_refl) as ((s' & rest & H1 & H2) & _).
  exists s', rest. split; [exact H1|exact H2].
Defined.

(** * Further properties of the sketch *)

(** ** What the playback shows *)

Lemma showArrow_glyph d s : showArrow d s = emit (glyph_of d) s.
Proof.
  unfold showArrow, glyph_of, UpArrow, DownArrow, LeftArrow, RightArrow.
  destruct d as [|[[[]|[]|]|[[]|[]|]|]|]; try reflexivity; by rewrite emit_nil.
Qed.

Lemma show_moves_trace n i s :
  0 ≤ i → (Z.to_nat i + n ≤ length (sequence s))%nat →
  show_moves n i s =
    Some (emit (flat_map move_frame (take n (drop (Z.to_nat i) (sequence s)))) s).
Proof.
  revert i s; induction n as [|n IH]; intros i s Hi Hlen.
  - cbn. by rewrite emit_nil.
  - destruct (lookup_lt_is_Some_2 (sequence s) (Z.to_nat i)) as [d Hd]; [lia|].
    cbn [show_moves]. unfold sequence_at.
    destruct (Z.ltb_spec i 0) as [?|_]; [lia|]. rewrite Hd. cbn [mbind option_bind].
    rewrite showArrow_glyph, emit_emit, IH by (cbn; lia).
    rewrite emit_emit. cbn [sequence emit].
    replace (Z.to_nat (i + 1)) with (S (Z.to_nat i)) by lia.
    rewrite (drop_S _ _ _ Hd). cbn [take flat_map]. reflexivity.
Qed.

Lemma playSequence_trace now s :
  length (sequence s) = Z.to_nat MAX_LEVEL → currentLevel s ≤ MAX_LEVEL →
  playSequence now s =
    Some (set_lastInputTime (millis now)
            (emit (playback (currentLevel s) (sequence s)) s)).
Proof.
  intros Hlen Hlv. unfold playSequence.
  rewrite show_moves_trace by (cbn; lia).
  cbn [mbind option_bind]. rewrite emit_emit. reflexivity.
Qed.

Lemma blocked_ms_app tr1 tr2 : blocked_ms (tr1 ++ tr2) = blocked_ms tr1 + blocked_ms tr2.
Proof.
  induction tr1 as [|c tr1 IH]; [done|]. destruct c; cbn; rewrite ?IH; lia.
Qed.

Lemma blocked_ms_glyph d : blocked_ms (glyph_of d) = 0.
Proof. by destruct d as [|[[[]|[]|]|[[]|[]|]|]|]. Qed.

Lemma blocked_ms_frames l :
  blocked_ms (flat_map move_frame l) = (MOVE_DELAY + 300) * Z.of_nat (length l).
Proof.
  induction l as [|d l IH]; [done|].
  cbn [flat_map length]. unfold move_frame at 1.
  rewrite !blocked_ms_app, blocked_ms_glyph, IH. cbn. unfold MOVE_DELAY. lia.
Qed.

(** Two playbacks that start with the same glyph show the same direction. *)
Lemma glyph_of_inj d1 d2 r1 r2 :
  0 ≤ d1 < 4 → 0 ≤ d2 < 4 →
  glyph_of d1 ++ r1 = glyph_of d2 ++ r2 → d1 = d2 ∧ r1 = r2.
Proof.
  intros H1 H2.
  assert (d1 = 0 ∨ d1 = 1 ∨ d1 = 2 ∨ d1 = 3) as Hd1 by lia.
  assert (d2 = 0 ∨ d2 = 1 ∨ d2 = 2 ∨ d2 = 3) as Hd2 by lia.
  destruct Hd1 as [-> | [-> | [-> | ->] ] ], Hd2 as [-> | [-> | [-> | ->] ] ];
    cbn; intros H; try discriminate H; by simplify_list_eq.
Qed.

Lemma frames_inj l1 l2 :
  Forall (fun d => 0 ≤ d < 4) l1 → Forall (fun d => 0 ≤ d < 4) l2 →
  flat_map move_frame l1 = flat_map move_frame l2 → l1 = l2.
Proof.
  intros H1; revert l2; induction H1 as [|d1 l1 Hd1 _ IH]; intros l2 H2 Heq.
  - destruct H2 as [|d2 l2 Hd2 _]; [done|]. exfalso.
    cbn in Heq. unfold move_frame in Heq.
    assert (d2 = 0 ∨ d2 = 1 ∨ d2 = 2 ∨ d2 = 3) as [-> | [-> | [-> | ->] ] ] by lia;
      discriminate Heq.
  - destruct H2 as [|d2 l2 Hd2 H2].
    + exfalso. cbn in Heq. unfold move_frame in Heq.
      assert (d1 = 0 ∨ d1 = 1 ∨ d1 = 2 ∨ d1 = 3) as [-> | [-> | [-> | ->] ] ] by lia;
        discriminate Heq.
    + cbn [flat_map] in Heq. unfold move_frame in Heq at 1 3.
      rewrite <- !app_assoc in Heq.
      apply glyph_of_inj in Heq as [-> Heq]; [|done..].
      cbn in Heq. f_equal. apply IH; [done|]. by simplify_list_eq.
Qed.

(** X1.  The playback of a level shows the level number, pauses a second,
    and then shows exactly the first [currentLevel] elements of the sequence,
    in order, each as its glyph for MOVE_DELAY followed by 300 ms of blank
    screen; it stamps the time at its end and changes nothing else. *)
Theorem playback_shows_the_level_prefix now s :
  length (sequence s) = Z.to_nat MAX_LEVEL → currentLevel s ≤ MAX_LEVEL →
  ∃ s', playSequence now s = Some s' ∧
    trace s' = trace s ++ playback (currentLevel s) (sequence s) ∧
    lastInputTime s' = millis now ∧
    sequence s' = sequence s ∧ currentLevel s' = currentLevel s ∧
    currentMove s' = currentMove s ∧
    gameStarted s' = gameStarted s ∧ gameOver s' = gameOver s ∧
    lastRecovery s' = lastRecovery s.
Proof.
  intros Hlen Hlv. rewrite playSequence_trace by done.
  eexists. split; [done|]. by repeat split.
Qed.

(** X2.  The playback of level n blocks the board for exactly
    1000 + n * (MOVE_DELAY + 300) ms. *)
Theorem playback_blocks_for now s :
  length (sequence s) = Z.to_nat MAX_LEVEL → 0 ≤ currentLevel s ≤ MAX_LEVEL →
  ∃ s', playSequence now s = Some s' ∧
    blocked_ms (trace s') =
      blocked_ms (trace s) + 1000 + currentLevel s * (MOVE_DELAY + 300).
Proof.
  intros Hlen Hlv. rewrite playSequence_trace by lia.
  eexists. split; [done|]. cbn [trace emit set_lastInputTime]. unfold playback.
  rewrite !blocked_ms_app, blocked_ms_frames, length_take_le by lia.
  cbn [blocked_ms level_header]. unfold MOVE_DELAY. lia.
Qed.

(** X3.  What is shown identifies what is to be repeated: two playbacks of
    the same level, of sequences of direction codes, that put the same
    commands on the display were playbacks of the same elements. *)
Theorem playback_determines_the_prefix now s1 s2 s1' s2' :
  length (sequence s1) = Z.to_nat MAX_LEVEL →
  length (sequence s2) = Z.to_nat MAX_LEVEL →
  Forall (fun d => 0 ≤ d < 4) (sequence s1) →
  Forall (fun d => 0 ≤ d < 4) (sequence s2) →
  currentLevel s1 = currentLevel s2 → currentLevel s1 ≤ MAX_LEVEL →
  trace s1 = trace s2 →
  playSequence now s1 = Some s1' → playSequence now s2 = Some s2' →
  trace s1' = trace s2' →
  take (Z.to_nat (currentLevel s1)) (sequence s1) =
  take (Z.to_nat (currentLevel s1)) (sequence s2).
Proof.
  intros Hl1 Hl2 Hr1 Hr2 Hlv Hmax Htr H1 H2 Heq.
  rewrite playSequence_trace in H1, H2 by (done || lia).
  injection H1 as <-. injection H2 as <-. cbn [trace emit set_lastInputTime] in Heq.
  rewrite Htr, <- Hlv in Heq. apply app_inv_head in Heq.
  unfold playback in Heq. apply app_inv_head in Heq.
  apply frames_inj in Heq; [done|by apply Forall_take..].
Qed.

Section Further.

Context {fpu : FloatUnit}.

(** ** The whole board *)

Lemma system_run_running ts s : system_run ts (Running s) = Running <$> run ts s.
Proof.
  revert s; induction ts as [|t ts IH]; intros s; cbn; [done|].
  destruct (loop t s) as [s1|]; cbn; [apply IH|done].
Qed.

Lemma setup_outcome b :
  (∃ s, setup b = Halted s ∧ gameStarted s = false) ∨
  (∃ s, setup b = Running s ∧ inv s).
Proof.
  destruct (first_success 5 0 (i2c_ack b)) as [j|] eqn:Hbus.
  - destruct (first_success 5 0 (mpu_ok b)) as [k|] eqn:Hmpu.
    + right. destruct (setup_runs_with_bus_and_sensor b) as (s & ? & _ & ? & _);
        [by eexists..|]. eauto.
    + left. apply setup_halts_without_sensor; [by eexists|done].
  - left. destruct (setup_halts_without_bus b Hbus) as (s & ? & ? & _). eauto.
Qed.

(** X4.  Whatever the peripherals answer at bring-up and whatever is read in
    any number of iterations afterwards, the board never indexes [sequence]
    outside its MAX_LEVEL slots: every run is defined; a halted board has
    started no game, and a running one keeps the cursor in
    [0, MAX_LEVEL) and the level in [1, MAX_LEVEL + 1], so no counter
    overflows either. *)
Theorem board_never_leaves_the_array (b : Boot) (ts : list Tick) :
  ∃ sys, system_run ts (setup b) = Some sys ∧
    match sys with
    | Halted s => gameStarted s = false
    | Running s => inv s
    end.
Proof.
  destruct (setup_outcome b) as [(s & -> & Hoff)|(s & -> & Hinv)].
  - destruct (system_run_halted ts s) as (s' & -> & Hon & _).
    eexists. split; [done|]. congruence.
  - rewrite system_run_running.
    destruct (run_inv ts s Hinv) as (s' & -> & Hinv').
    eexists. by split.
Qed.

(** ** Time across the rollover of [millis] *)

Lemma elapsed_millis now t0 :
  0 ≤ now - t0 < 2 ^ 32 → elapsed (millis now) (millis t0) = now - t0.
Proof.
  intros H. unfold elapsed, millis. rewrite <- Zminus_mod. by apply Z.mod_small.
Qed.

(** X5.  The timeout is measured on the true uptime even when the 32-bit
    [millis] counter has rolled over since the time stamp was taken: as long
    as fewer than 2^32 ms have passed, the poll times out exactly when more
    than INPUT_TIMEOUT ms have, and otherwise goes on to read the sensor. *)
Theorem timeout_survives_rollover now t0 r t1 t2 s :
  lastInputTime s = millis t0 → 0 ≤ now - t0 < 2 ^ 32 →
  timed_out now s = (INPUT_TIMEOUT <? now - t0) ∧
  (INPUT_TIMEOUT < now - t0 →
   checkPlayerInput now r t1 t2 s = Some (showGameOverScreen (set_gameOver true s))) ∧
  (now - t0 ≤ INPUT_TIMEOUT →
   checkPlayerInput now r t1 t2 s =
     match classify r with
     | Some m =>
         handlePlayerMove m t1 t2 (emit (replicate (Z.to_nat (m + 1)) MpuGetEvent) s)
     | None => Some (emit (replicate 4 MpuGetEvent) s)
     end).
Proof.
  intros Hlast Hspan.
  assert (timed_out now s = (INPUT_TIMEOUT <? now - t0)) as Hto.
  { unfold timed_out. by rewrite Hlast, elapsed_millis. }
  split; [done|]. split; intros H.
  - apply checkPlayerInput_timed_out. rewrite Hto. by apply Z.ltb_lt.
  - apply checkPlayerInput_in_time. rewrite Hto. by apply Z.ltb_ge.
Qed.

(** X6.  The bus recovery fires exactly when more than 60000 ms of true
    uptime have passed since the last one, rollover of [millis] included; it
    closes and reopens the bus at I2C_SPEED and stamps the time, and it never
    touches the game: flags, level, cursor, sequence and input time stamp
    are as before. *)
Theorem recovery_once_a_minute t t0 s :
  lastRecovery s = millis t0 → 0 ≤ t_loop t - t0 < 2 ^ 32 →
  recovery t s =
    (if 60000 <? t_loop t - t0 then
       set_lastRecovery (millis (t_recovered t))
         (emit [WireEnd; WireBegin I2C_SDA I2C_SCL; WireSetClock I2C_SPEED] s)
     else s) ∧
  sequence (recovery t s) = sequence s ∧
  currentLevel (recovery t s) = currentLevel s ∧
  currentMove (recovery t s) = currentMove s ∧
  gameStarted (recovery t s) = gameStarted s ∧
  gameOver (recovery t s) = gameOver s ∧
  lastInputTime (recovery t s) = lastInputTime s.
Proof.
  intros Hlast Hspan. split.
  - unfold recovery. by rewrite Hlast, elapsed_millis.
  - destruct (recovery_same t s) as (? & ? & ? & ? & ? & ?). by repeat split.
Qed.

(** ** The button *)

Lemma recovery_housekeeping t s :
  ∃ new, trace (recovery t s) = trace s ++ new ∧
    Forall (fun c => housekeeping c = true) new.
Proof.
  unfold recovery. destruct (_ <? _).
  - eexists. split; [done|]. by repeat constructor.
  - exists []. by rewrite app_nil_r.
Qed.

Lemma quiet_iteration t s :
  gameStarted s && negb (gameOver s) = false →
  (gameOver s = true → gameStarted s = true) →
  btn_start t = false → btn_reset t = false →
  loop t s = Some (emit [Delay 50] (recovery t s)).
Proof.
  intros Hgame Hterm Hbs Hbr. unfold loop, start_phase, game_phase, reset_phase.
  destruct (recovery_same t s) as (_ & _ & Hon1 & Hover1 & _).
  rewrite Hbs, andb_false_r. cbn. rewrite Hon1, Hover1, Hgame. cbn.
  by rewrite Hbr, andb_false_r.
Qed.

(** X7.  Outside a running game nothing happens until the button is pressed:
    idle, or after a win or a loss, any number of iterations without the
    button leave flags, level, cursor, sequence and time stamp as they were,
    read no sensor and draw nothing; all they issue is the 50 ms pacing delay
    and the bus recovery. *)
Theorem nothing_happens_without_the_button ts s :
  inv s → gameState s ≠ AwaitingInput →
  Forall (fun t => btn_start t = false ∧ btn_reset t = false) ts →
  ∃ s' new, run ts s = Some s' ∧
    trace s' = trace s ++ new ∧ Forall (fun c => housekeeping c = true) new ∧
    sequence s' = sequence s ∧ currentLevel s' = currentLevel s ∧
    currentMove s' = currentMove s ∧ gameStarted s' = gameStarted s ∧
    gameOver s' = gameOver s ∧ lastInputTime s' = lastInputTime s.
Proof.
  intros (_ & _ & _ & _ & Hterm) Hst Hts.
  assert (gameStarted s && negb (gameOver s) = false) as Hgame.
  { destruct (gameStarted s) eqn:Hon, (gameOver s) eqn:Hover; try done.
    exfalso. apply Hst. by apply gameState_AwaitingInput. }
  clear Hst. revert s Hterm Hgame.
  induction Hts as [|t ts [Hbs Hbr] _ IH]; intros s Hterm Hgame.
  - exists s, []. cbn. rewrite app_nil_r. by repeat split.
  - cbn [run]. rewrite quiet_iteration by done. cbn [mbind option_bind].
    destruct (recovery_same t s) as (Hseq & Hlv & Hon & Hover & Htime & Hcur).
    destruct (recovery_housekeeping t s) as (new1 & Htr1 & Hnew1).
    destruct (IH (emit [Delay 50] (recovery t s)))
      as (s' & new & -> & Htr & Hnew & Hs1 & Hs2 & Hs3 & Hs4 & Hs5 & Hs6).
    { cbn. by rewrite Hon, Hover. }
    { cbn. by rewrite Hon, Hover. }
    exists s', (new1 ++ [Delay 50] ++ new). split; [done|].
    split; [rewrite Htr; cbn; rewrite Htr1; by rewrite <- !app_assoc|].
    split; [apply Forall_app; split; [done|]; by apply Forall_cons|].
    cbn in Hs1, Hs2, Hs3, Hs4, Hs5, Hs6.
    repeat split; congruence.
Qed.

(** X8.  An iteration in which the button is down at the reset test never
    ends in a game-over state: a game that ends in it, and one that had ended
    before, is back at the start screen before the iteration is over. *)
Theorem button_down_never_ends_in_game_over t s :
  inv s → btn_reset t = true →
  ∃ s', loop t s = Some s' ∧ gameOver s' = false ∧
    (gameState s' = Idle ∨ gameState s' = AwaitingInput).
Proof.
  intros Hinv Hbtn. unfold loop.
  pose proof (recovery_inv t s Hinv) as H1.
  destruct (start_phase_inv t _ H1) as (s2 & -> & H2 & _). cbn.
  destruct (game_phase_inv t _ H2) as (s3 & -> & H3 & _). cbn.
  eexists. split; [done|]. unfold reset_phase. rewrite Hbtn, andb_true_r.
  destruct (gameOver s3) eqn:Hover; cbn.
  - split; [done|]. by left.
  - rewrite Hover. split; [done|]. unfold gameState. cbn. rewrite Hover.
    destruct (gameStarted s3); [by right|by left].
Qed.

(** ** Moves *)

(** X9.  The iteration that starts a game polls the board at once: when the
    board shows a gesture other than the element the engine compares with,
    the game is lost at level 1 in the very iteration that started it. *)
Theorem start_iteration_already_polls t s g :
  inv s → gameState s = Idle → btn_start t = true → btn_reset t = false →
  classify (acc t) = Some g →
  generated (raw t) !! Z.to_nat (currentMove s) ≠ Some g →
  ∃ s', loop t s = Some s' ∧ gameState s' = Lost ∧
    currentLevel s' = 1 ∧ sequence s' = generated (raw t).
Proof.
  intros Hinv [Hover Hoff]%gameState_Idle Hbs Hbr Hg Hne.
  pose proof (recovery_inv t s Hinv) as Hinv1.
  destruct (recovery_same t s) as (_ & _ & Hon1 & _ & _ & Hcur1).
  destruct (start_phase_inv t _ Hinv1) as (e & He & Hinve & Hcure & Hgo & _).
  destruct Hgo as (Hseq & Hlv & Hon & Hovere); [by rewrite Hon1, Hoff, Hbs|].
  destruct Hinve as (Hlen & Hcur & _).
  destruct (checkPlayerInput_spec (t_check t) (acc t) (t_move t) (t_next t) e)
    as (s3 & Hs3 & Hseq3 & Hon3 & _ & _ & Hcase);
    [done|unfold MAX_LEVEL; lia|done|].
  assert (sequence_at e (currentMove e) ≠ Some g) as Hne'.
  { unfold sequence_at. destruct (Z.ltb_spec (currentMove e) 0) as [?|_]; [lia|].
    by rewrite Hseq, Hcure, Hcur1. }
  destruct Hcase as [(Hover3 & Hlv3 & _)|[(_ & Hnone & _)|(_ & _ & Hexp & _)]];
    [|congruence..].
  unfold loop. rewrite He. cbn. unfold game_phase. rewrite Hon, Hovere. cbn.
  rewrite Hs3. cbn. unfold reset_phase. rewrite Hbr, andb_false_r.
  eexists. split; [done|]. split.
  - apply gameState_Lost. cbn. split; [done|]. rewrite Hlv3, Hlv. unfold MAX_LEVEL. lia.
  - cbn. split; congruence.
Qed.

Lemma poll_accepts now r t1 t2 s m :
  inv s → gameState s = AwaitingInput → timed_out now s = false →
  classify r = Some m → sequence_at s (currentMove s) = Some m →
  ∃ s', checkPlayerInput now r t1 t2 s = Some s' ∧ gameStarted s' = true ∧
    ((currentMove s + 1 < currentLevel s ∧ gameOver s' = false ∧
      currentLevel s' = currentLevel s ∧ currentMove s' = currentMove s + 1 ∧
      lastInputTime s' = millis t1)
     ∨ (currentLevel s ≤ currentMove s + 1 ∧ currentLevel s < MAX_LEVEL ∧
        gameOver s' = false ∧ currentLevel s' = currentLevel s + 1 ∧
        currentMove s' = 0 ∧ lastInputTime s' = millis t2)
     ∨ (currentLevel s ≤ currentMove s + 1 ∧ currentLevel s = MAX_LEVEL ∧
        gameOver s' = true ∧ currentLevel s' = MAX_LEVEL + 1 ∧
        currentMove s' = 0 ∧ lastInputTime s' = millis t1)).
Proof.
  intros (Hlen & Hcur & Hlv & Hplay & _) [Hover Hon]%gameState_AwaitingInput Hto Hm He.
  specialize (Hplay Hon Hover).
  rewrite checkPlayerInput_in_time, Hm by done.
  destruct (handlePlayerMove_spec m t1 t2
              (emit (replicate (Z.to_nat (m + 1)) MpuGetEvent) s) m)
    as (s' & rest & -> & _ & Hon' & _ & _ & Hcase); cbn; try done; try lia.
  exists s'. split; [done|]. cbn in Hcase, Hon'. rewrite Hover in Hcase.
  split; [congruence|].
  destruct Hcase as [(? & _)|[(_ & ?)|[(_ & ?)|(_ & ?)]]]; [done|tauto..].
Qed.

(** X10.  At level 1 one accepted move completes the level wherever the
    cursor stands, also when an earlier game left it beyond the level: the
    engine goes on to level 2 with the cursor at 0 and the time stamp taken
    at the end of the playback. *)
Theorem first_move_completes_level_one now r t1 t2 s m :
  inv s → gameState s = AwaitingInput → currentLevel s = 1 →
  timed_out now s = false →
  classify r = Some m → sequence_at s (currentMove s) = Some m →
  ∃ s', checkPlayerInput now r t1 t2 s = Some s' ∧
    gameState s' = AwaitingInput ∧ currentLevel s' = 2 ∧ currentMove s' = 0 ∧
    lastInputTime s' = millis t2.
Proof.
  intros Hinv Hst Hlv Hto Hm He.
  destruct (poll_accepts now r t1 t2 s m Hinv Hst Hto Hm He)
    as (s' & Hs' & Hon' & Hcase).
  destruct Hinv as (_ & Hcur & _).
  exists s'. split; [done|].
  destruct Hcase as [(? & _)|[(_ & _ & Ho & Hl & Hc & Ht)|(_ & ? & _)]];
    [lia| |unfold MAX_LEVEL in *; lia].
  split; [by apply gameState_AwaitingInput|]. rewrite Hl, Hlv. by repeat split.
Qed.

(** X11.  The input time stamp moves only when a move is accepted: a late
    poll, a poll without a gesture and a wrong gesture leave it as it was; an
    accepted move sets it to the time read after the move, or, when the move
    completes a level below MAX_LEVEL, to the time read at the end of the
    next level's playback, so that the playback never eats into the timeout. *)
Theorem time_stamp_moves_on_accepted_moves_only now r t1 t2 s :
  inv s → gameState s = AwaitingInput →
  ∃ s', checkPlayerInput now r t1 t2 s = Some s' ∧
    (timed_out now s = true ∨ classify r ≠ sequence_at s (currentMove s) →
     lastInputTime s' = lastInputTime s) ∧
    (timed_out now s = false → classify r = sequence_at s (currentMove s) →
     lastInputTime s' =
       if (currentLevel s <=? currentMove s + 1) && (currentLevel s <? MAX_LEVEL)
       then millis t2 else millis t1).
Proof.
  intros Hinv Hst.
  pose proof Hinv as (Hlen & Hcur & Hlv & Hplay & _).
  pose proof Hst as [Hover Hon]%gameState_AwaitingInput.
  specialize (Hplay Hon Hover).
  destruct (sequence_at_Some s (currentMove s)) as [e He]; [lia|lia|].
  destruct (timed_out now s) eqn:Hto.
  { rewrite checkPlayerInput_timed_out by done. eexists. split; [done|].
    split; [done|]. intros [=]. }
  destruct (classify r) as [m|] eqn:Hm.
  - destruct (decide (m = e)) as [->|Hne].
    + destruct (poll_accepts now r t1 t2 s e Hinv Hst Hto Hm He)
        as (s' & Hs' & _ & Hcase).
      exists s'. split; [done|]. split; [intros [[=]|Hx]; congruence|].
      intros _ _. unfold MAX_LEVEL in *.
      destruct Hcase as [(? & _ & _ & _ & ->)|[(? & ? & _ & _ & _ & ->)|
                         (? & ? & _ & _ & _ & ->)]].
      * rewrite (proj2 (Z.leb_gt _ _)) by lia. done.
      * rewrite (proj2 (Z.leb_le _ _)), (proj2 (Z.ltb_lt _ _)) by lia. done.
      * rewrite (proj2 (Z.ltb_ge _ _)), andb_false_r by lia. done.
    + rewrite checkPlayerInput_in_time by done. rewrite Hm.
      destruct (handlePlayerMove_spec m t1 t2
                  (emit (replicate (Z.to_nat (m + 1)) MpuGetEvent) s) e)
        as (s' & rest & -> & _ & _ & _ & _ & Hcase); cbn; try done; try lia.
      exists s'. split; [done|]. cbn in Hcase.
      split; [|intros _ Hx; congruence]. intros _.
      destruct Hcase as [(_ & _ & _ & _ & ?)|[(? & _)|[(? & _)|(? & _)]]]; done.
  - rewrite checkPlayerInput_in_time by done. rewrite Hm.
    eexists. split; [done|]. split; [done|]. intros _ Hx. congruence.
Qed.

(** ** The game-over screen *)

(** X12.  The game-over screen reports the number of completed levels,
    [currentLevel - 1]: after a timeout and after a wrong move the levels
    completed so far, and after the last move of level MAX_LEVEL, where it
    follows the win screen and a pause of 3000 ms, MAX_LEVEL itself. *)
Theorem game_over_screen_reports_completed_levels now r move t1 t2 s e :
  inv s → gameState s = AwaitingInput → sequence_at s (currentMove s) = Some e →
  (timed_out now s = true →
   ∃ s', checkPlayerInput now r t1 t2 s = Some s' ∧
     trace s' = trace s ++ game_over_screen (currentLevel s - 1)) ∧
  (move ≠ e →
   ∃ s', handlePlayerMove move t1 t2 s = Some s' ∧
     trace s' = trace s ++ feedback ++ game_over_screen (currentLevel s - 1)) ∧
  (move = e → currentLevel s = MAX_LEVEL → currentMove s = MAX_LEVEL - 1 →
   ∃ s', handlePlayerMove move t1 t2 s = Some s' ∧
     trace s' = trace s ++ feedback ++ win_screen ++ [Delay 3000]
                ++ game_over_screen MAX_LEVEL).
Proof.
  intros (Hlen & Hcur & Hlv & Hplay & _) [Hover Hon]%gameState_AwaitingInput He.
  specialize (Hplay Hon Hover). unfold MAX_LEVEL in *.
  split; [|split].
  - intros Hto. rewrite checkPlayerInput_timed_out by done.
    eexists. split; [done|]. cbn. by rewrite wrap_int_small by lia.
  - intros Hne. unfold handlePlayerMove, UpArrow. rewrite emit_emit, sequence_at_emit.
    cbn [currentMove emit]. rewrite He. cbn [mbind option_bind].
    destruct (Z.eqb_spec move e) as [?|_]; [done|].
    eexists. split; [done|]. cbn. rewrite wrap_int_small by lia.
    unfold feedback. by rewrite <- !app_assoc.
  - intros -> Hl Hc. unfold handlePlayerMove, UpArrow. rewrite emit_emit, sequence_at_emit.
    cbn [currentMove emit]. rewrite He. cbn [mbind option_bind].
    rewrite Z.eqb_refl.
    cbn [currentLevel currentMove set_lastInputTime set_currentMove
         set_currentLevel emit].
    rewrite Hc, Hl. cbn.
    eexists. split; [done|]. cbn. unfold feedback. by rewrite <- !app_assoc.
Qed.

(** ** Bring-up, step by step *)

Lemma Forall_failed_attempts (P : Cmd → Prop) probe k :
  Forall P probe → P (Delay 100) → Forall P (failed_attempts probe k).
Proof.
  intros Hp Hd. induction k as [|k IH]; cbn [failed_attempts]; [done|].
  apply Forall_app. split; [done|]. by apply Forall_cons.
Qed.

Lemma blocked_ms_failed_attempts probe k :
  blocked_ms probe = 0 → blocked_ms (failed_attempts probe k) = 100 * Z.of_nat k.
Proof.
  intros Hp. induction k as [|k IH]; cbn [failed_attempts]; [done|].
  rewrite blocked_ms_app, Hp. cbn [app blocked_ms]. lia.
Qed.

(** [setup], with its three loops replaced by their outcomes. *)
Lemma setup_unfold b :
  let s0 := emit [SerialBegin 115200; Delay 2000; PinModePullup BUTTON_PIN] power_on in
  setup b =
    match first_success 5 0 (i2c_ack b) with
    | None =>
        Halted (emit (failed_attempts i2c_probe 5
                      ++ [SerialPrintln "I2C initialization failed!"]) s0)
    | Some j =>
        match first_success 5 0 (mpu_ok b) with
        | None =>
            Halted (emit ((failed_attempts i2c_probe j ++ i2c_probe)
                          ++ failed_attempts mpu_probe 5
                          ++ [SerialPrintln "MPU6050 initialization failed!"]) s0)
        | Some k =>
            Running
              (emit ((failed_attempts i2c_probe j ++ i2c_probe)
                     ++ (failed_attempts mpu_probe k ++ mpu_probe)
                     ++ match first_success 5 0 (oled_ok b) with
                        | Some o => failed_attempts oled_probe o ++ oled_probe
                        | None =>
                            failed_attempts oled_probe 5
                            ++ [SerialPrintln
                                  "OLED initialization failed - continuing without display"]
                        end
                     ++ [MpuConfigure] ++ start_screen) s0)
        end
    end.
Proof.
  intros s0. unfold setup. fold s0.
  rewrite initializeI2C_policy. unfold retry_policy at 1.
  destruct (first_success 5 0 (i2c_ack b)) as [j|];
    cbn -[initializeMPU initializeOLED first_success failed_attempts s0];
    [|by rewrite emit_emit].
  rewrite initializeMPU_policy. unfold retry_policy at 1.
  destruct (first_success 5 0 (mpu_ok b)) as [k|];
    cbn -[initializeOLED first_success failed_attempts s0];
    [|by rewrite !emit_emit].
  rewrite initializeOLED_policy. unfold retry_policy at 1.
  destruct (first_success 5 0 (oled_ok b)) as [o|];
    cbn -[first_success failed_attempts s0]; unfold showStartScreen;
    rewrite !emit_emit; by rewrite <- ?app_assoc.
Qed.

(** X13.  A board that halts at bring-up has never addressed the display:
    the display is brought up, configured and drawn on only after bus and
    sensor came up.  A board that goes on has drawn the start screen as the
    last act of [setup], also when the display did not come up. *)
Theorem halted_board_never_draws (b : Boot) :
  match setup b with
  | Halted s => Forall (fun c => display_cmd c = false) (trace s)
  | Running s => ∃ pre, trace s = pre ++ [MpuConfigure] ++ start_screen
  end.
Proof.
  rewrite setup_unfold.
  destruct (first_success 5 0 (i2c_ack b)) as [j|].
  - destruct (first_success 5 0 (mpu_ok b)) as [k|].
    + cbn [trace emit].
      match goal with
      | |- ∃ pre, ?x ++ (?a ++ ?c ++ ?d ++ _) = _ => exists (x ++ a ++ c ++ d)
      end.
      by rewrite <- !app_assoc.
    + cbn [trace emit power_on app].
      repeat (apply Forall_cons_2; [done|]).
      repeat (apply Forall_app; split);
        try (apply Forall_failed_attempts; [by repeat constructor|done]);
        by repeat constructor.
  - cbn [trace emit power_on app].
      repeat (apply Forall_cons_2; [done|]).
      repeat (apply Forall_app; split);
        try (apply Forall_failed_attempts; [by repeat constructor|done]);
        by repeat constructor.
Qed.

(** X14.  [setup] spends in delays the 2000 ms it waits for the serial port
    and 100 ms for every failed attempt of the loops it reaches: between
    2000 and 3500 ms in all, after which the board runs or is halted. *)
Theorem setup_blocks_for (b : Boot) :
  blocked_ms (trace (state_of (setup b))) =
    2000 + 100 * Z.of_nat (failures (i2c_ack b))
    + match first_success 5 0 (i2c_ack b) with
      | None => 0
      | Some _ =>
          100 * Z.of_nat (failures (mpu_ok b))
          + match first_success 5 0 (mpu_ok b) with
            | None => 0
            | Some _ => 100 * Z.of_nat (failures (oled_ok b))
            end
      end ∧
  2000 ≤ blocked_ms (trace (state_of (setup b))) ≤ 3500.
Proof.
  assert (∀ ok, (failures ok ≤ 5)%nat) as Hfail.
  { intros ok. unfold failures. destruct (first_success 5 0 ok) as [j|] eqn:E; [|done].
    apply first_success_Some in E as [? _]. lia. }
  pose proof (Hfail (i2c_ack b)). pose proof (Hfail (mpu_ok b)).
  pose proof (Hfail (oled_ok b)).
  match goal with |- ?x = ?y ∧ _ => assert (x = y) as Heq end.
  { rewrite setup_unfold. unfold failures.
    destruct (first_success 5 0 (i2c_ack b)) as [j|];
      [destruct (first_success 5 0 (mpu_ok b)) as [k|];
       [destruct (first_success 5 0 (oled_ok b)) as [o|]|]|];
      cbn [state_of trace emit power_on app blocked_ms];
      rewrite ?blocked_ms_app, ?blocked_ms_failed_attempts by done;
      cbn [blocked_ms i2c_probe mpu_probe oled_probe start_screen]; lia. }
  split; [done|]. rewrite Heq.
  destruct (first_success 5 0 (i2c_ack b));
    [destruct (first_success 5 0 (mpu_ok b))|]; lia.
Qed.

(** ** More on what runs keep *)

Lemma setup_emits b :
  ∃ cs, setup b = Halted (emit cs power_on) ∨ setup b = Running (emit cs power_on).
Proof.
  rewrite setup_unfold.
  destruct (first_success 5 0 (i2c_ack b)) as [j|];
    [destruct (first_success 5 0 (mpu_ok b)) as [k|]|];
    rewrite emit_emit; eauto.
Qed.

Lemma system_run_halted_emits ts s :
  ∃ cs, system_run ts (Halted s) = Some (Halted (emit cs s)).
Proof.
  revert s; induction ts as [|t ts IH]; intros s; cbn.
  - exists []. by rewrite emit_nil.
  - destruct (IH (emit [Delay 100] s)) as (cs & ->). rewrite emit_emit. eauto.
Qed.

Lemma run_keeps_directions ts s :
  inv s → Forall (fun d => 0 ≤ d < 4) (sequence s) →
  ∃ s', run ts s = Some s' ∧ Forall (fun d => 0 ≤ d < 4) (sequence s').
Proof.
  revert s; induction ts as [|t ts IH]; intros s Hinv Hdir; cbn [run]; [eauto|].
  destruct (loop_inv t s Hinv) as (s1 & -> & Hinv1 & Hseq). cbn.
  apply IH; [done|]. rewrite Hseq.
  destruct (_ && _); [apply generated_range|done].
Qed.

(** X15.  From power on, whatever is read, the array only ever holds direction
    codes 0..3 (zeros before the first game, draws of [random(4)] after), so
    no playback entry is ever left blank by the default branch of
    [showArrow]. *)
Theorem only_directions_are_ever_stored (b : Boot) (ts : list Tick) :
  ∃ sys, system_run ts (setup b) = Some sys ∧
    Forall (fun d => 0 ≤ d < 4) (sequence (state_of sys)) ∧
    Forall (fun d => glyph_of d ≠ []) (sequence (state_of sys)).
Proof.
  assert (∀ l, Forall (fun d => 0 ≤ d < 4) l → Forall (fun d => glyph_of d ≠ []) l)
    as Hglyph.
  { intros l Hl. eapply Forall_impl; [exact Hl|]. intros d Hd. cbn beta in Hd.
    assert (d = 0 ∨ d = 1 ∨ d = 2 ∨ d = 3) as [-> | [-> | [-> | ->] ] ] by lia; done. }
  assert (Forall (fun d => 0 ≤ d < 4) (sequence power_on)) as Hzero.
  { by repeat constructor. }
  destruct (setup_emits b) as (cs & [-> | ->]).
  - destruct (system_run_halted_emits ts (emit cs power_on)) as (cs' & ->).
    eexists. split; [done|]. cbn [state_of sequence emit]. auto.
  - rewrite system_run_running.
    destruct (run_keeps_directions ts (emit cs power_on)) as (s' & -> & Hdir);
      [apply power_on_inv|exact Hzero|].
    eexists. split; [done|]. cbn [state_of]. auto.
Qed.

(** X16.  Only the start of a new game can put the cursor at or above the
    level: iterations that start no game keep a cursor that is below the
    level below it, through moves, level advances, a win, a loss and the
    return to the start screen. *)
Theorem cursor_stays_below_level_without_start ts s :
  inv s → currentMove s < currentLevel s →
  Forall (fun t => btn_start t = false) ts →
  ∃ s', run ts s = Some s' ∧ 0 ≤ currentMove s' < currentLevel s'.
Proof.
  intros Hinv Hlt Hts. revert s Hinv Hlt.
  induction Hts as [|t ts Hbs _ IH]; intros s Hinv Hlt.
  - exists s. split; [done|]. destruct Hinv as (_ & ? & _). lia.
  - cbn [run].
    destruct (loop_inv t s Hinv) as (s1 & Hs1 & Hinv1 & _). rewrite Hs1. cbn.
    apply IH; [done|].
    unfold loop, start_phase in Hs1. rewrite Hbs, andb_false_r in Hs1. cbn in Hs1.
    destruct (recovery_same t s) as (_ & Hlv & Hon & Hover & _ & Hcur).
    pose proof (recovery_inv t s Hinv) as Hinvr.
    unfold game_phase in Hs1.
    destruct (gameStarted (recovery t s) && negb (gameOver (recovery t s))) eqn:Hgame.
    + destruct (cursor_below_level_preserved (t_check t) (acc t) (t_move t) (t_next t)
                  (recovery t s) Hinvr) as (s3 & Hs3 & Hlt3).
      { apply gameState_AwaitingInput. apply andb_prop in Hgame as [-> Hx].
        by destruct (gameOver (recovery t s)). }
      { by rewrite Hcur, Hlv. }
      rewrite Hs3 in Hs1. cbn in Hs1. injection Hs1 as <-.
      unfold reset_phase. destruct (gameOver s3 && btn_reset t); cbn; lia.
    + cbn in Hs1. injection Hs1 as <-.
      unfold reset_phase.
      destruct (gameOver (recovery t s) && btn_reset t); cbn; lia.
Qed.

(** X17.  The move that completes a level below MAX_LEVEL is answered, after
    the feedback, with the playback of the next level: the whole sequence
    from its first element, one element longer than before. *)
Theorem completed_level_replays_one_more move t1 t2 s :
  inv s → gameState s = AwaitingInput →
  sequence_at s (currentMove s) = Some move →
  currentLevel s ≤ currentMove s + 1 → currentLevel s < MAX_LEVEL →
  ∃ s', handlePlayerMove move t1 t2 s = Some s' ∧
    trace s' = trace s ++ feedback ++ playback (currentLevel s + 1) (sequence s) ∧
    currentLevel s' = currentLevel s + 1 ∧ currentMove s' = 0.
Proof.
  intros (Hlen & Hcur & Hlv & _) _ He Hdone Hmore. unfold MAX_LEVEL in *.
  unfold handlePlayerMove, UpArrow. rewrite emit_emit, sequence_at_emit.
  cbn [currentMove emit]. rewrite He. cbn [mbind option_bind].
  rewrite Z.eqb_refl, (wrap_int_small (currentMove s + 1)) by lia.
  cbn [currentLevel currentMove set_lastInputTime set_currentMove emit].
  rewrite (proj2 (Z.leb_le _ _)), (wrap_int_small (currentLevel s + 1)) by lia.
  cbn [currentLevel set_currentLevel].
  rewrite (proj2 (Z.ltb_ge _ _)) by (unfold MAX_LEVEL; lia).
  rewrite playSequence_trace by (cbn; unfold MAX_LEVEL; (done || lia)).
  eexists. split; [done|]. cbn. unfold feedback. by rewrite <- !app_assoc.
Qed.

End Further.

(** ** The further properties at work on the bench *)

(** X1 at work: the playback of level 3 of the bench game. *)
Lemma playback_shows_the_level_prefix_witness :
  length (sequence bench_awaiting) = Z.to_nat MAX_LEVEL ∧
  currentLevel bench_awaiting ≤ MAX_LEVEL ∧
  ∃ s', playSequence 1200 bench_awaiting = Some s' ∧
        trace s' = level_header 3 ++ move_frame 0 ++ move_frame 1 ++ move_frame 2.
Proof.
  assert (currentLevel bench_awaiting ≤ MAX_LEVEL) as Hlv by (unfold MAX_LEVEL; cbn; lia).
  split; [reflexivity|]. split; [exact Hlv|].
  destruct (playback_shows_the_level_prefix 1200 bench_awaiting eq_refl Hlv)
    as (s' & H1 & H2 & _).
  exists s'. split; [exact H1|]. rewrite H2. reflexivity.
Defined.

(** X2 at work: level 3 blocks for 1000 + 3 * 1100 ms. *)
Lemma playback_blocks_for_witness :
  length (sequence bench_awaiting) = Z.to_nat MAX_LEVEL ∧
  0 ≤ currentLevel bench_awaiting ≤ MAX_LEVEL ∧
  ∃ s', playSequence 1200 bench_awaiting = Some s' ∧ blocked_ms (trace s') = 4300.
Proof.
  assert (0 ≤ currentLevel bench_awaiting ≤ MAX_LEVEL) as Hlv by (unfold MAX_LEVEL; cbn; lia).
  split; [reflexivity|]. split; [exact Hlv|].
  destruct (playback_blocks_for 1200 bench_awaiting eq_refl Hlv) as (s' & H1 & H2).
  exists s'. split; [exact H1|]. rewrite H2. reflexivity.
Defined.

(** X3 at work: two sequences whose level 3 looks the same on the display. *)
Lemma playback_determines_the_prefix_witness :
  take 3 (sequence bench_awaiting) = take 3 (sequence bench_other).
Proof.
  assert (currentLevel bench_awaiting ≤ MAX_LEVEL) as Hlv by (unfold MAX_LEVEL; cbn; lia).
  assert (currentLevel bench_other ≤ MAX_LEVEL) as Hlv' by (unfold MAX_LEVEL; cbn; lia).
  assert (Forall (fun d => 0 ≤ d < 4) (sequence bench_awaiting)) as Hr1
    by (repeat constructor; lia).
  assert (Forall (fun d => 0 ≤ d < 4) (sequence bench_other)) as Hr2
    by (repeat constructor; lia).
  exact (playback_determines_the_prefix 1200 bench_awaiting bench_other _ _
           eq_refl eq_refl Hr1 Hr2 eq_refl Hlv eq_refl
           (playSequence_trace 1200 bench_awaiting eq_refl Hlv)
           (playSequence_trace 1200 bench_other eq_refl Hlv') eq_refl).
Defined.

(** X5 at work: a poll 3500 ms after a move made one second before the
    rollover; [millis] reads 2500 by then. *)
Lemma timeout_survives_rollover_witness :
  lastInputTime bench_rollover = millis (2 ^ 32 - 1000) ∧
  millis (2 ^ 32 + 2500) = 2500 ∧
  @checkPlayerInput bench_unit (2 ^ 32 + 2500) (hold tilted_down) 0 0 bench_rollover
    = Some (showGameOverScreen (set_gameOver true bench_rollover)).
Proof.
  split; [reflexivity|]. split; [reflexivity|].
  apply (@timeout_survives_rollover bench_unit (2 ^ 32 + 2500) (2 ^ 32 - 1000)
           (hold tilted_down) 0 0 bench_rollover eq_refl); by vm_compute.
Defined.

(** X6 at work: a recovery that falls due across the rollover. *)
Lemma recovery_once_a_minute_witness :
  lastRecovery bench_before_rollover = millis (2 ^ 32 - 70000) ∧
  trace (recovery (quiet_tick (2 ^ 32 + 100)) bench_before_rollover) =
    [WireEnd; WireBegin I2C_SDA I2C_SCL; WireSetClock I2C_SPEED] ∧
  lastRecovery (recovery (quiet_tick (2 ^ 32 + 100)) bench_before_rollover) = 100.
Proof.
  split; [reflexivity|].
  assert (0 ≤ t_loop (quiet_tick (2 ^ 32 + 100)) - (2 ^ 32 - 70000) < 2 ^ 32) as Hspan
    by (by vm_compute).
  rewrite (proj1 (recovery_once_a_minute (quiet_tick (2 ^ 32 + 100)) (2 ^ 32 - 70000)
                    bench_before_rollover eq_refl Hspan)).
  split; reflexivity.
Defined.

(** X7 at work: the lost bench game, left alone and tilted. *)
Lemma nothing_happens_without_the_button_witness :
  inv bench_lost ∧ gameState bench_lost ≠ AwaitingInput ∧
  ∃ s', @run bench_unit [quiet_tick 700; tilt_tick 800 tilted_left] bench_lost = Some s' ∧
        gameOver s' = true ∧ currentLevel s' = 3 ∧ currentMove s' = 2.
Proof.
  assert (inv bench_lost) as Hinv by inv_by_eval.
  assert (gameState bench_lost ≠ AwaitingInput) as Hst by discriminate.
  split; [exact Hinv|]. split; [exact Hst|].
  destruct (@nothing_happens_without_the_button bench_unit
              [quiet_tick 700; tilt_tick 800 tilted_left] bench_lost Hinv Hst)
    as (s' & new & H1 & _ & _ & _ & H2 & H3 & _ & H4 & _).
  { repeat constructor. }
  exists s'. split; [exact H1|]. rewrite H2, H3, H4. repeat split.
Defined.

(** X8 at work: a wrong gesture with the button down. *)
Lemma button_down_never_ends_in_game_over_witness :
  inv bench_awaiting ∧
  ∃ s', @loop bench_unit (late_button_tick 1200 tilted_up) bench_awaiting = Some s' ∧
        gameOver s' = false.
Proof.
  assert (inv bench_awaiting) as Hinv by inv_by_eval.
  split; [exact Hinv|].
  destruct (@button_down_never_ends_in_game_over bench_unit
              (late_button_tick 1200 tilted_up) bench_awaiting Hinv eq_refl)
    as (s' & H1 & H2 & _).
  exists s'. split; [exact H1|exact H2].
Defined.

(** X9 at work: the button is pressed while the board is tilted down; the
    bench sequence starts with Up. *)
Lemma start_iteration_already_polls_witness :
  inv power_on ∧ gameState power_on = Idle ∧
  ∃ s', @loop bench_unit (tilted_start_tick 100 tilted_down) power_on = Some s' ∧
        gameState s' = Lost.
Proof.
  assert (inv power_on) as Hinv by inv_by_eval.
  split; [exact Hinv|]. split; [reflexivity|].
  destruct (@start_iteration_already_polls bench_unit (tilted_start_tick 100 tilted_down)
              power_on 1 Hinv eq_refl eq_refl eq_refl eq_refl)
    as (s' & H1 & H2 & _).
  { vm_compute. discriminate. }
  exists s'. split; [exact H1|exact H2].
Defined.

(** X10 at work: level 1 with the cursor left at 2; the element at 2 is Left. *)
Lemma first_move_completes_level_one_witness :
  inv bench_stale ∧ gameState bench_stale = AwaitingInput ∧
  currentLevel bench_stale = 1 ∧ currentMove bench_stale = 2 ∧
  ∃ s', @checkPlayerInput bench_unit 1200 (hold tilted_left) 1300 2500 bench_stale
          = Some s' ∧
        currentLevel s' = 2 ∧ currentMove s' = 0 ∧ lastInputTime s' = 2500.
Proof.
  assert (inv bench_stale) as Hinv by inv_by_eval.
  split; [exact Hinv|]. do 3 (split; [reflexivity|]).
  destruct (@first_move_completes_level_one bench_unit 1200 (hold tilted_left) 1300 2500
              bench_stale 2 Hinv eq_refl eq_refl eq_refl eq_refl eq_refl)
    as (s' & H1 & _ & H2 & H3 & H4).
  exists s'. split; [exact H1|]. rewrite H2, H3, H4. repeat split.
Defined.

(** X11 at work: a poll of the flat board leaves the time stamp at 1000. *)
Lemma time_stamp_moves_on_accepted_moves_only_witness :
  inv bench_awaiting ∧ gameState bench_awaiting = AwaitingInput ∧
  ∃ s', @checkPlayerInput bench_unit 1200 (hold flat) 1300 2500 bench_awaiting
          = Some s' ∧
        lastInputTime s' = 1000.
Proof.
  assert (inv bench_awaiting) as Hinv by inv_by_eval.
  split; [exact Hinv|]. split; [reflexivity|].
  destruct (@time_stamp_moves_on_accepted_moves_only bench_unit 1200 (hold flat) 1300
              2500 bench_awaiting Hinv eq_refl) as (s' & H1 & H2 & _).
  exists s'. split; [exact H1|]. rewrite H2; [reflexivity|].
  right. vm_compute. discriminate.
Defined.

(** X12 at work: the last move of the bench game. *)
Lemma game_over_screen_reports_completed_levels_witness :
  inv bench_last_move ∧ gameState bench_last_move = AwaitingInput ∧
  sequence_at bench_last_move (currentMove bench_last_move) = Some 1 ∧
  ∃ s', handlePlayerMove 1 1200 1200 bench_last_move = Some s' ∧
        trace s' = feedback ++ win_screen ++ [Delay 3000] ++ game_over_screen 10.
Proof.
  assert (inv bench_last_move) as Hinv by inv_by_eval.
  split; [exact Hinv|]. do 2 (split; [reflexivity|]).
  destruct (proj2 (proj2 (@game_over_screen_reports_completed_levels bench_unit 0
                            (hold flat) 1 1200 1200 bench_last_move 1 Hinv
                            eq_refl eq_refl)) eq_refl eq_refl eq_refl)
    as (s' & H1 & H2).
  exists s'. split; [exact H1|]. rewrite H2. reflexivity.
Defined.

(** X16 at work: the bench game through the end of level 3 and a wrong move
    at level 4, with the button down at the end. *)
Lemma cursor_stays_below_level_without_start_witness :
  inv bench_awaiting ∧ currentMove bench_awaiting < currentLevel bench_awaiting ∧
  ∃ s', @run bench_unit
          [tilt_tick 1200 tilted_down; tilt_tick 1300 tilted_left;
           late_button_tick 1400 tilted_right] bench_awaiting = Some s' ∧
        0 ≤ currentMove s' < currentLevel s'.
Proof.
  assert (inv bench_awaiting) as Hinv by inv_by_eval.
  assert (currentMove bench_awaiting < currentLevel bench_awaiting) as Hlt
    by (cbn; lia).
  split; [exact Hinv|]. split; [exact Hlt|].
  apply (@cursor_stays_below_level_without_start bench_unit); [exact Hinv|exact Hlt|].
  repeat constructor.
Defined.

(** X17 at work: the third move of level 3 is answered with level 4. *)
Lemma completed_level_replays_one_more_witness :
  inv bench_level_end ∧ gameState bench_level_end = AwaitingInput ∧
  sequence_at bench_level_end (currentMove bench_level_end) = Some 2 ∧
  ∃ s', handlePlayerMove 2 1200 1200 bench_level_end = Some s' ∧
        trace s' = feedback ++ level_header 4 ++ move_frame 0 ++ move_frame 1
                   ++ move_frame 2 ++ move_frame 3.
Proof.
  assert (inv bench_level_end) as Hinv by inv_by_eval.
  split; [exact Hinv|]. do 2 (split; [reflexivity|]).
  destruct (completed_level_replays_one_more 2 1200 1200 bench_level_end Hinv
              eq_refl eq_refl)
    as (s' & H1 & H2 & _).
  { cbn. lia. }
  { unfold MAX_LEVEL. cbn. lia. }
  exists s'. split; [exact H1|]. rewrite H2. reflexivity.
Defined.
